(** * A manufacturing and delivery line: Client, Machine, Truck, System

    Shallow embedding of [client.py], [machine.py], [truck.py] and
    [system.py].  Every method becomes a function from the object (or the
    objects it reaches through its references) to the updated object and a
    [Result]: Python mutates before it raises, so the state is returned on
    both paths.

    Numbers.  Ticks, deadlines and countdowns are Python ints ([Z]).
    Quantities and payments are Python floats.  The line as a whole
    (machines, trucks, the client they deliver to, the system) is
    modelled with exact rationals ([Q], compared with [==]); what is
    proved of it is what does not turn on the last bit of a sum: the
    order of the steps, the state machines, frames, refusals and
    errors.  Where rounding decides the result the code is modelled a
    second time in IEEE binary64, on the Standard Library's
    [SpecFloat]: the client ([Client64]), whose guard tests a rounded
    sum and whose priority is picked against rounded thresholds, and
    the [quantize] helper of [System.get_state] ([Binary64]).

    Randomness.  [random.random()] and [random.choices] are ambient; the
    value a call would draw is an explicit argument of the method. *)

From Stdlib Require Import ZArith QArith Qround Qminmax Lqa Lia Bool List String.
From Stdlib Require Import Floats.SpecFloat.
Import ListNotations.

Set Implicit Arguments.

(** ** Results and exceptions *)

Inductive exn : Set := ValueError | KeyError | TypeError | IndexError.

Inductive Result (A : Type) : Type :=
| Ok (a : A)
| Raise (e : exn).
Arguments Ok {A} a.
Arguments Raise {A} e.

Definition raised {A} (r : Result A) : bool :=
  match r with Ok _ => false | Raise _ => true end.

(** Strict comparison on rationals as a boolean. *)
Definition Qlt_bool (x y : Q) : bool := negb (Qle_bool y x).

(** Python's two-argument [min] and [max] return the first argument unless
    the second is strictly better. *)
Definition py_min (a b : Q) : Q := if Qlt_bool b a then b else a.
Definition py_max (a b : Q) : Q := if Qlt_bool a b then b else a.

(** [str(bool)] as an f-string renders it. *)
Definition str_bool (b : bool) : string :=
  if b then "True"%string else "False"%string.

(** ** Client (client.py) *)

Module Client.

Inductive state_t : Set := idle | order_placed | wait_for_completion | completed.
Inductive priority : Set := low | medium | high.

Definition state_eqb (a b : state_t) : bool :=
  match a, b with
  | idle, idle | order_placed, order_placed
  | wait_for_completion, wait_for_completion | completed, completed => true
  | _, _ => false
  end.

Definition str_priority (p : priority) : string :=
  match p with low => "low" | medium => "medium" | high => "high" end.

(** [str(self.current_priority)]: [None] prints as the word None. *)
Definition str_opt_priority (p : option priority) : string :=
  match p with Some p => str_priority p | None => "None" end.

Record t : Type := mk {
  state : state_t;
  priority_distribution : list (priority * Q);
  order_penalties : priority -> Z * Q * Q;
  time_passed : Z;
  order_quantity : Q;
  current_payment : Q;
  current_priority : option priority;
  time_limit : option Z;
  in_time_payment : option Q;
  out_of_time_payment : option Q
}.

Definition default_priority_distribution : list (priority * Q) :=
  [(low, 4 # 10); (medium, 5 # 10); (high, 1 # 10)].

Definition default_order_penalties (p : priority) : Z * Q * Q :=
  match p with
  | low => (20%Z, 5, 1)
  | medium => (15%Z, 10, 2)
  | high => (10%Z, 15, 1)
  end.

(** [__init__] *)
Definition init (dist : list (priority * Q)) (pen : priority -> Z * Q * Q) : t :=
  {| state := idle;
     priority_distribution := dist;
     order_penalties := pen;
     time_passed := 0;
     order_quantity := 0;
     current_payment := 0;
     current_priority := None;
     time_limit := None;
     in_time_payment := None;
     out_of_time_payment := None |}.

(** The loop of [place_order]: walk the distribution in its declared
    order, accumulate, stop at the first priority whose cumulative
    probability reaches the draw. *)
Fixpoint select_priority (rand_val cumulative_prob : Q)
         (items : list (priority * Q)) : option priority :=
  match items with
  | [] => None
  | (p, prob) :: rest =>
      let cumulative_prob := cumulative_prob + prob in
      if Qle_bool rand_val cumulative_prob then Some p
      else select_priority rand_val cumulative_prob rest
  end.

Definition place_order (rand_val : Q) (c : t) : t * Result priority :=
  if negb (state_eqb (state c) idle) then (c, Raise ValueError)
  else
    let chosen :=
      match select_priority rand_val 0 (priority_distribution c) with
      | Some p => Some p
      | None => current_priority c
      end in
    match chosen with
    | None => (c, Raise KeyError)
    | Some p =>
        let '(tl, itp, otp) := order_penalties c p in
        ({| state := order_placed;
            priority_distribution := priority_distribution c;
            order_penalties := order_penalties c;
            time_passed := 0;
            order_quantity := 0;
            current_payment := 0;
            current_priority := Some p;
            time_limit := Some tl;
            in_time_payment := Some itp;
            out_of_time_payment := Some otp |}, Ok p)
    end.

Definition active (c : t) : bool :=
  state_eqb (state c) order_placed || state_eqb (state c) wait_for_completion.

(** The rate [quantity_shipped] applies: decided by [time_passed] at the
    moment of the call.  A missing deadline or rate is a [TypeError]. *)
Definition applicable_rate (c : t) : Result Q :=
  match time_limit c with
  | None => Raise TypeError
  | Some tl =>
      if (time_passed c <=? tl)%Z then
        match in_time_payment c with Some r => Ok r | None => Raise TypeError end
      else
        match out_of_time_payment c with Some r => Ok r | None => Raise TypeError end
  end.

Definition quantity_shipped (quantity : Q) (c : t) : t * Result Q :=
  if negb (active c) then (c, Raise ValueError)
  else if Qle_bool quantity 0 || Qlt_bool 1 (order_quantity c + quantity) then
    (c, Raise ValueError)
  else
    match applicable_rate c with
    | Raise e => (c, Raise e)
    | Ok rate =>
        let payment := quantity * rate in
        let order_quantity' := order_quantity c + quantity in
        ({| state := if Qle_bool 1 order_quantity' then completed
                     else wait_for_completion;
            priority_distribution := priority_distribution c;
            order_penalties := order_penalties c;
            time_passed := time_passed c;
            order_quantity := order_quantity';
            current_payment := current_payment c + payment;
            current_priority := current_priority c;
            time_limit := time_limit c;
            in_time_payment := in_time_payment c;
            out_of_time_payment := out_of_time_payment c |}, Ok payment)
    end.

Definition step_time (c : t) : t * Result bool :=
  if active c then
    let time_passed' := (time_passed c + 1)%Z in
    let c' :=
      {| state := state c;
         priority_distribution := priority_distribution c;
         order_penalties := order_penalties c;
         time_passed := time_passed';
         order_quantity := order_quantity c;
         current_payment := current_payment c;
         current_priority := current_priority c;
         time_limit := time_limit c;
         in_time_payment := in_time_payment c;
         out_of_time_payment := out_of_time_payment c |} in
    match time_limit c with
    | None => (c', Raise TypeError)
    | Some tl => (c', Ok (time_passed' <=? tl)%Z)
    end
  else (c, Ok false).

(** The dictionary [get_state] returns. *)
Record state_dict : Type := {
  sd_state : state_t;
  sd_priority : option priority;
  sd_time_passed : Z;
  sd_time_limit : option Z;
  sd_order_quantity : Q;
  sd_current_payment : Q;
  sd_in_time : option bool
}.

Definition get_state (c : t) : state_dict :=
  {| sd_state := state c;
     sd_priority := current_priority c;
     sd_time_passed := time_passed c;
     sd_time_limit := time_limit c;
     sd_order_quantity := order_quantity c;
     sd_current_payment := current_payment c;
     sd_in_time :=
       match time_limit c with
       | None => None
       | Some tl => if (tl =? 0)%Z then None else Some (time_passed c <=? tl)%Z
       end |}.

Definition reset (c : t) : t :=
  {| state := idle;
     priority_distribution := priority_distribution c;
     order_penalties := order_penalties c;
     time_passed := 0;
     order_quantity := 0;
     current_payment := 0;
     current_priority := None;
     time_limit := None;
     in_time_payment := None;
     out_of_time_payment := None |}.

(** Calls a caller can make on a client between two resets, and the
    client after a sequence of them (results dropped: a raised error
    leaves the object as the method left it).  [reset] itself returns
    the client to what [init] builds from the same configuration. *)
Inductive op : Type :=
| PlaceOrder (rand_val : Q)
| QuantityShipped (quantity : Q)
| StepTime
| GetState.

Definition apply_op (o : op) (c : t) : t :=
  match o with
  | PlaceOrder r => fst (place_order r c)
  | QuantityShipped q => fst (quantity_shipped q c)
  | StepTime => fst (step_time c)
  | GetState => c
  end.

Definition run (ops : list op) (c : t) : t :=
  fold_left (fun c o => apply_op o c) ops c.

(** What holds of a client however it was driven. *)
Record inv (c : t) : Prop := {
  inv_nonneg : 0 <= order_quantity c;
  inv_le_one : order_quantity c <= 1;
  inv_idle : state c = idle -> order_quantity c == 0;
  inv_placed : state c = order_placed -> order_quantity c == 0;
  inv_waiting : state c = wait_for_completion -> order_quantity c < 1;
  inv_completed : state c = completed -> order_quantity c == 1;
  inv_terms : state c <> idle ->
              exists p tl itp otp,
                current_priority c = Some p /\ time_limit c = Some tl /\
                in_time_payment c = Some itp /\ out_of_time_payment c = Some otp
}.

End Client.

(** ** References

    Machines and trucks hold references to other objects ([source_machine],
    [client]).  The objects of a line live in one store; a reference names
    its object there, so that a mutation made through one holder is seen by
    the others. *)

Inductive mref : Set := M1 | M2.
Inductive tref : Set := SmallTruck | BigTruck.
Inductive cref : Set := TheClient.

(** ** Machine (machine.py) *)

Module Machine.

Inductive state_t : Set := idle | processing | maintenance.
Inductive batch : Set := full | half | third.

(** Keys of an outcome table: a batch size or the word none. *)
Inductive outcome : Set := produced (b : batch) | none.

Definition state_eqb (a b : state_t) : bool :=
  match a, b with
  | idle, idle | processing, processing | maintenance, maintenance => true
  | _, _ => false
  end.

Definition str_state (s : state_t) : string :=
  match s with
  | idle => "idle" | processing => "processing" | maintenance => "maintenance"
  end.

Definition str_batch (b : batch) : string :=
  match b with full => "full" | half => "half" | third => "third" end.

(** [batch_size in ["full", "half", "third"]] *)
Definition parse_batch (s : string) : option batch :=
  if String.eqb s "full" then Some full
  else if String.eqb s "half" then Some half
  else if String.eqb s "third" then Some third
  else None.

(** The dictionary [{"full": 1.0, "half": 0.5, "third": 1/3}], used both
    for the raw material a batch needs and for the output of an outcome. *)
Definition quantity_of (b : batch) : Q :=
  match b with full => 1 | half => 1 # 2 | third => 1 # 3 end.

Record t : Type := mk {
  name : string;
  processing_times : batch -> Z;
  success_probabilities : batch -> list (outcome * Q);
  maintenance_effect : batch -> list (outcome * Q);
  maintenance_time : Z;
  maintenance_operator_cost : Z;
  state : state_t;
  current_batch_size : option batch;
  time_remaining : Z;
  stored_output : Q;
  source_machine : option mref;
  raw_material_consumed : Q;
  maintenance_active : bool;
  total_operator_time : Z
}.

Definition default_processing_times (b : batch) : Z :=
  match b with full => 3 | half => 2 | third => 1 end%Z.

Definition default_success_probabilities (b : batch) : list (outcome * Q) :=
  match b with
  | full => [(produced full, 70 # 100); (produced half, 5 # 100);
             (produced third, 20 # 100); (none, 5 # 100)]
  | half => [(produced half, 80 # 100); (produced third, 15 # 100); (none, 5 # 100)]
  | third => [(produced third, 85 # 100); (none, 15 # 100)]
  end.

Definition default_maintenance_effect (b : batch) : list (outcome * Q) :=
  match b with
  | full => [(produced full, 75 # 100); (produced half, 15 # 100);
             (produced third, 5 # 100); (none, 5 # 100)]
  | half => [(produced half, 85 # 100); (produced third, 10 # 100); (none, 5 # 100)]
  | third => [(produced third, 90 # 100); (none, 10 # 100)]
  end.

(** [__init__] with the default tables. *)
Definition init (name : string) : t :=
  {| name := name;
     processing_times := default_processing_times;
     success_probabilities := default_success_probabilities;
     maintenance_effect := default_maintenance_effect;
     maintenance_time := 2;
     maintenance_operator_cost := 1;
     state := idle;
     current_batch_size := None;
     time_remaining := 0;
     stored_output := 0;
     source_machine := None;
     raw_material_consumed := 0;
     maintenance_active := false;
     total_operator_time := 0 |}.

(** Assignment to the attributes that change after construction. *)
Definition assign (m : t) (st : state_t) (cb : option batch) (tr : Z) (so : Q)
           (src : option mref) (rc : Q) (ma : bool) (tot : Z) : t :=
  {| name := name m;
     processing_times := processing_times m;
     success_probabilities := success_probabilities m;
     maintenance_effect := maintenance_effect m;
     maintenance_time := maintenance_time m;
     maintenance_operator_cost := maintenance_operator_cost m;
     state := st;
     current_batch_size := cb;
     time_remaining := tr;
     stored_output := so;
     source_machine := src;
     raw_material_consumed := rc;
     maintenance_active := ma;
     total_operator_time := tot |}.

Definition set_state (m : t) (x : state_t) : t :=
  assign m x (current_batch_size m) (time_remaining m) (stored_output m)
         (source_machine m) (raw_material_consumed m) (maintenance_active m)
         (total_operator_time m).
Definition set_current_batch_size (m : t) (x : option batch) : t :=
  assign m (state m) x (time_remaining m) (stored_output m)
         (source_machine m) (raw_material_consumed m) (maintenance_active m)
         (total_operator_time m).
Definition set_time_remaining (m : t) (x : Z) : t :=
  assign m (state m) (current_batch_size m) x (stored_output m)
         (source_machine m) (raw_material_consumed m) (maintenance_active m)
         (total_operator_time m).
Definition set_stored_output (m : t) (x : Q) : t :=
  assign m (state m) (current_batch_size m) (time_remaining m) x
         (source_machine m) (raw_material_consumed m) (maintenance_active m)
         (total_operator_time m).
Definition set_raw_material_consumed (m : t) (x : Q) : t :=
  assign m (state m) (current_batch_size m) (time_remaining m) (stored_output m)
         (source_machine m) x (maintenance_active m) (total_operator_time m).
Definition set_maintenance_active (m : t) (x : bool) : t :=
  assign m (state m) (current_batch_size m) (time_remaining m) (stored_output m)
         (source_machine m) (raw_material_consumed m) x (total_operator_time m).
Definition set_total_operator_time (m : t) (x : Z) : t :=
  assign m (state m) (current_batch_size m) (time_remaining m) (stored_output m)
         (source_machine m) (raw_material_consumed m) (maintenance_active m) x.

Definition set_source_machine (machine : mref) (m : t) : t :=
  assign m (state m) (current_batch_size m) (time_remaining m) (stored_output m)
         (Some machine) (raw_material_consumed m) (maintenance_active m)
         (total_operator_time m).

Definition retrieve_quantity (max_quantity : Q) (m : t) : t * Q :=
  let quantity := py_min max_quantity (stored_output m) in
  (set_stored_output m (stored_output m - quantity), quantity).

Definition request_maintenance (m : t) : t * Result bool :=
  if negb (state_eqb (state m) idle) then (m, Ok false)
  else
    let m := set_state m maintenance in
    let m := set_time_remaining m (maintenance_time m) in
    let m := set_total_operator_time m
               (total_operator_time m + maintenance_operator_cost m)%Z in
    (m, Ok true).

(** [random.choices(outcomes, weights=probs, k=1)[0]]: some element of
    the population, at the position the generator lands on (never past
    the last one); an empty population is an [IndexError]. *)
Definition random_choices (population : list outcome) (draw : nat) : Result outcome :=
  match population with
  | [] => Raise IndexError
  | o :: _ => Ok (nth (Nat.min draw (List.length population - 1)) population o)
  end.

Definition step (draw : nat) (m : t) : t * Result bool :=
  match state m with
  | processing =>
      let m := set_time_remaining m (time_remaining m - 1)%Z in
      if (time_remaining m <=? 0)%Z then
        match current_batch_size m with
        | None => (m, Raise KeyError)
        | Some b =>
            let probabilities :=
              if maintenance_active m then maintenance_effect m b
              else success_probabilities m b in
            let outcomes := map fst probabilities in
            match random_choices outcomes draw with
            | Raise e => (m, Raise e)
            | Ok outcome =>
                let m :=
                  match outcome with
                  | produced o =>
                      set_stored_output m (stored_output m + quantity_of o)
                  | none => m
                  end in
                let m := set_state m idle in
                let m := set_current_batch_size m None in
                (m, Ok true)
            end
        end
      else (m, Ok false)
  | maintenance =>
      let m := set_time_remaining m (time_remaining m - 1)%Z in
      if (time_remaining m <=? 0)%Z then
        let m := set_maintenance_active m true in
        let m := set_state m idle in
        (m, Ok true)
      else (m, Ok false)
  | idle => (m, Ok false)
  end.

Definition is_idle (m : t) : bool := state_eqb (state m) idle.

Definition reset (m : t) : t :=
  assign m idle None 0 0 (source_machine m) 0 false 0.

(** Methods that reach another machine through [source_machine], over
    any store [H] that holds the machines. *)
Section Linked.
Variable H : Type.
Variable get : mref -> H -> t.
Variable set : mref -> t -> H -> H.

Definition start_processing (self : mref) (b : batch) (h : H) : H :=
  let m := get self h in
  let m := set_state m processing in
  let m := set_current_batch_size m (Some b) in
  let m := set_time_remaining m (processing_times m b) in
  set self m h.

Definition request_processing (self : mref) (batch_size : string) (h : H)
  : H * Result bool :=
  if negb (state_eqb (state (get self h)) idle) then (h, Ok false)
  else
    match parse_batch batch_size with
    | None => (h, Raise ValueError)
    | Some b =>
        let raw_material_needed := quantity_of b in
        match source_machine (get self h) with
        | Some src =>
            let '(upstream, available) :=
              retrieve_quantity raw_material_needed (get src h) in
            let h := set src upstream h in
            if Qlt_bool available raw_material_needed then (h, Ok false)
            else (start_processing self b h, Ok true)
        | None =>
            let m := get self h in
            let h := set self (set_raw_material_consumed m
                       (raw_material_consumed m + raw_material_needed)) h in
            (start_processing self b h, Ok true)
        end
    end.
End Linked.

End Machine.

(** ** Truck (truck.py) *)

Module Truck.

Inductive state_t : Set := available | delivering.

Definition state_eqb (a b : state_t) : bool :=
  match a, b with
  | available, available | delivering, delivering => true
  | _, _ => false
  end.

Record t : Type := mk {
  capacity : Q;
  time_to_deliver : Z;
  name : string;
  state : state_t;
  current_load : Q;
  time_remaining : Z;
  client : option cref;
  source_machine : option mref
}.

(** [__init__]; the system always passes a name. *)
Definition init (capacity : Q) (time_to_deliver : Z) (name : string) : t :=
  {| capacity := capacity;
     time_to_deliver := time_to_deliver;
     name := name;
     state := available;
     current_load := 0;
     time_remaining := 0;
     client := None;
     source_machine := None |}.

Definition assign (k : t) (st : state_t) (load : Q) (tr : Z)
           (c : option cref) (src : option mref) : t :=
  {| capacity := capacity k;
     time_to_deliver := time_to_deliver k;
     name := name k;
     state := st;
     current_load := load;
     time_remaining := tr;
     client := c;
     source_machine := src |}.

Definition set_client (c : cref) (k : t) : t :=
  assign k (state k) (current_load k) (time_remaining k) (Some c) (source_machine k).
Definition set_machine (m : mref) (k : t) : t :=
  assign k (state k) (current_load k) (time_remaining k) (client k) (Some m).
Definition set_time_remaining (k : t) (x : Z) : t :=
  assign k (state k) (current_load k) x (client k) (source_machine k).

Definition is_available (k : t) : bool := state_eqb (state k) available.

Definition reset (k : t) : t :=
  assign k available 0 0 (client k) (source_machine k).

(** Methods that reach the source machine and the client, over any
    store [H] that holds them. *)
Section Linked.
Variable H : Type.
Variable get_truck : tref -> H -> t.
Variable set_truck : tref -> t -> H -> H.
Variable get_machine : mref -> H -> Machine.t.
Variable set_machine_obj : mref -> Machine.t -> H -> H.
Variable get_client : cref -> H -> Client.t.
Variable set_client_obj : cref -> Client.t -> H -> H.

Definition request_shipment (self : tref) (h : H) : H * Result bool :=
  let k := get_truck self h in
  if negb (state_eqb (state k) available) then (h, Ok false)
  else
    match source_machine k, client k with
    | Some src, Some _ =>
        let '(machine, retrieved_quantity) :=
          Machine.retrieve_quantity (capacity k) (get_machine src h) in
        let h := set_machine_obj src machine h in
        if Qle_bool retrieved_quantity 0 then (h, Ok false)
        else
          let k := get_truck self h in
          (set_truck self
             (assign k delivering retrieved_quantity (time_to_deliver k)
                     (client k) (source_machine k)) h, Ok true)
    | _, _ => (h, Ok false)
    end.

(** The tail of [step]: reset the truck after the hand-over. *)
Definition finish_delivery (self : tref) (h : H) : H :=
  let k := get_truck self h in
  set_truck self
    (assign k available 0 (time_remaining k) (client k) (source_machine k)) h.

Definition step (self : tref) (h : H) : H * Result bool :=
  let k := get_truck self h in
  match state k with
  | delivering =>
      let k := set_time_remaining k (time_remaining k - 1)%Z in
      let h := set_truck self k h in
      if (time_remaining k <=? 0)%Z then
        match client k with
        | Some c =>
            let '(cl, r) := Client.quantity_shipped (current_load k) (get_client c h) in
            let h := set_client_obj c cl h in
            match r with
            | Raise e => (h, Raise e)
            | Ok _ => (finish_delivery self h, Ok true)
            end
        | None => (finish_delivery self h, Ok true)
        end
      else (h, Ok false)
  | available => (h, Ok false)
  end.
End Linked.

End Truck.

(** ** System (system.py) *)

Module System.

Record t : Type := mk {
  client : Client.t;
  m1 : Machine.t;
  m2 : Machine.t;
  small_truck : Truck.t;
  big_truck : Truck.t;
  time : Z;
  total_profit : Z;
  current_priority : option Client.priority;
  machines : list mref;
  trucks : list tref;
  current_enacted_strategy : Z
}.

(** The store: what each reference names. *)
Definition get_machine (r : mref) (s : t) : Machine.t :=
  match r with M1 => m1 s | M2 => m2 s end.

Definition set_machine (r : mref) (m : Machine.t) (s : t) : t :=
  match r with
  | M1 => mk (client s) m (m2 s) (small_truck s) (big_truck s) (time s)
             (total_profit s) (current_priority s) (machines s) (trucks s)
             (current_enacted_strategy s)
  | M2 => mk (client s) (m1 s) m (small_truck s) (big_truck s) (time s)
             (total_profit s) (current_priority s) (machines s) (trucks s)
             (current_enacted_strategy s)
  end.

Definition get_truck (r : tref) (s : t) : Truck.t :=
  match r with SmallTruck => small_truck s | BigTruck => big_truck s end.

Definition set_truck (r : tref) (k : Truck.t) (s : t) : t :=
  match r with
  | SmallTruck => mk (client s) (m1 s) (m2 s) k (big_truck s) (time s)
                     (total_profit s) (current_priority s) (machines s) (trucks s)
                     (current_enacted_strategy s)
  | BigTruck => mk (client s) (m1 s) (m2 s) (small_truck s) k (time s)
                   (total_profit s) (current_priority s) (machines s) (trucks s)
                   (current_enacted_strategy s)
  end.

Definition get_client (_ : cref) (s : t) : Client.t := client s.

Definition set_client (_ : cref) (c : Client.t) (s : t) : t :=
  mk c (m1 s) (m2 s) (small_truck s) (big_truck s) (time s)
     (total_profit s) (current_priority s) (machines s) (trucks s)
     (current_enacted_strategy s).

Definition set_current_priority (p : option Client.priority) (s : t) : t :=
  mk (client s) (m1 s) (m2 s) (small_truck s) (big_truck s) (time s)
     (total_profit s) p (machines s) (trucks s) (current_enacted_strategy s).

Definition set_current_enacted_strategy (n : Z) (s : t) : t :=
  mk (client s) (m1 s) (m2 s) (small_truck s) (big_truck s) (time s)
     (total_profit s) (current_priority s) (machines s) (trucks s) n.

(** What the ambient generator returns during one call: the value of
    [random.random()] and, for each machine, the position
    [random.choices] lands on if that machine samples an outcome. *)
Record rng : Type := { rand_val : Q; choice : mref -> nat }.

(** [int(x)]: truncation toward zero. *)
Definition int_of (x : Q) : Z := Z.quot (Qnum x) (Zpos (Qden x)).

(** The helper of [get_state]. *)
Definition quantize (value : Q) : Q :=
  let value := py_max 0 (py_min 1 value) in
  let sixths := int_of (value * 6) in
  inject_Z sixths / 6.

(** The 13-field tuple of [get_state], fields named as its docstring
    names them. *)
Record observation : Type := {
  client_current_priority : string;
  quantity_shipped_to_the_client : Q;
  time_to_penalty : Z;
  m1_status : string;
  m1_stored : Q;
  m1_to_completion : Z;
  m2_status : string;
  m2_stored : Q;
  m2_to_completion : Z;
  ts_status : string;
  ts_to_completion : Z;
  tb_status : string;
  tb_to_completion : Z
}.

Definition machine_status (m : Machine.t) : string * Z :=
  match Machine.state m with
  | Machine.processing =>
      (("processing_" ++
        match Machine.current_batch_size m with
        | Some b => Machine.str_batch b
        | None => "None"
        end)%string, Machine.time_remaining m)
  | st => (Machine.str_state st, 0%Z)
  end.

(** [time_to_penalty]: deadline minus elapsed time, or -1 when the
    deadline has passed or no order is active. *)
Definition penalty_clock (client_state : Client.state_dict) : Result Z :=
  match Client.sd_state client_state with
  | Client.order_placed | Client.wait_for_completion =>
      match Client.sd_time_limit client_state with
      | None => Raise TypeError
      | Some tl =>
          let tp := Client.sd_time_passed client_state in
          if (tl <? tp)%Z then Ok (-1)%Z else Ok (Z.max 0 (tl - tp))
      end
  | _ => Ok (-1)%Z
  end.

Definition small_truck_status (k : Truck.t) : string * Z :=
  match Truck.state k with
  | Truck.delivering =>
      ((if Qeq_bool (Truck.current_load k) 0
        then "shipping_zero" else "shipping_third")%string,
       Truck.time_remaining k)
  | Truck.available => ("idle"%string, 0%Z)
  end.

Definition big_truck_status (k : Truck.t) : string * Z :=
  match Truck.state k with
  | Truck.delivering =>
      let load := quantize (Truck.current_load k) in
      ((if Qeq_bool load 0 then "shipping_zero"
        else if Qle_bool load (1 # 3) then "shipping_third"
        else if Qle_bool load (2 # 3) then "shipping_half"
        else "shipping_full")%string,
       Truck.time_remaining k)
  | Truck.available => ("idle"%string, 0%Z)
  end.

Definition get_state (s : t) : Result observation :=
  let client_state := Client.get_state (client s) in
  let client_priority :=
    match Client.sd_priority client_state with
    | Some p => Client.str_priority p
    | None => "none"%string
    end in
  let quantity_shipped := quantize (Client.sd_order_quantity client_state) in
  match penalty_clock client_state with
  | Raise e => Raise e
  | Ok time_to_penalty =>
      let m1_state := machine_status (m1 s) in
      let m2_state := machine_status (m2 s) in
      let ts_state := small_truck_status (small_truck s) in
      let tb_state := big_truck_status (big_truck s) in
      Ok {| client_current_priority := client_priority;
            quantity_shipped_to_the_client := quantity_shipped;
            time_to_penalty := time_to_penalty;
            m1_status := fst m1_state;
            m1_stored := quantize (Machine.stored_output (m1 s));
            m1_to_completion := snd m1_state;
            m2_status := fst m2_state;
            m2_stored := quantize (Machine.stored_output (m2 s));
            m2_to_completion := snd m2_state;
            ts_status := fst ts_state;
            ts_to_completion := snd ts_state;
            tb_status := fst tb_state;
            tb_to_completion := snd tb_state |}
  end.

(** The request calls, on this store. *)
Definition machine_request_processing :=
  Machine.request_processing get_machine set_machine.

Definition machine_request_maintenance (r : mref) (s : t) : t * Result bool :=
  let res := Machine.request_maintenance (get_machine r s) in
  (set_machine r (fst res) s, snd res).

Definition truck_request_shipment :=
  Truck.request_shipment get_truck set_truck get_machine set_machine.

Definition machine_step (g : rng) (r : mref) (s : t) : t * Result bool :=
  let res := Machine.step (choice g r) (get_machine r s) in
  (set_machine r (fst res) s, snd res).

Definition truck_step :=
  Truck.step get_truck set_truck get_client set_client.

Definition client_step_time (s : t) : t * Result bool :=
  let res := Client.step_time (client s) in
  (set_client TheClient (fst res) s, snd res).

(** [try: <call> except Exception: pass], then [return self.get_state()]. *)
Definition attempt {A} (call : t -> t * Result A) (s : t) : t :=
  fst (call s).

Definition m1_processing_third (s : t) : t * Result observation :=
  let s := attempt (machine_request_processing M1 "third") s in (s, get_state s).
Definition m1_processing_half (s : t) : t * Result observation :=
  let s := attempt (machine_request_processing M1 "half") s in (s, get_state s).
Definition m1_processing_full (s : t) : t * Result observation :=
  let s := attempt (machine_request_processing M1 "full") s in (s, get_state s).
Definition m1_maintenance (s : t) : t * Result observation :=
  let s := attempt (machine_request_maintenance M1) s in (s, get_state s).
Definition m2_processing_third (s : t) : t * Result observation :=
  let s := attempt (machine_request_processing M2 "third") s in (s, get_state s).
Definition m2_processing_half (s : t) : t * Result observation :=
  let s := attempt (machine_request_processing M2 "half") s in (s, get_state s).
Definition m2_processing_full (s : t) : t * Result observation :=
  let s := attempt (machine_request_processing M2 "full") s in (s, get_state s).
Definition m2_maintenance (s : t) : t * Result observation :=
  let s := attempt (machine_request_maintenance M2) s in (s, get_state s).
Definition small_truck_shipment (s : t) : t * Result observation :=
  let s := attempt (truck_request_shipment SmallTruck) s in (s, get_state s).
Definition big_truck_shipment (s : t) : t * Result observation :=
  let s := attempt (truck_request_shipment BigTruck) s in (s, get_state s).

Definition step (g : rng) (s : t) : t * Result observation :=
  let s := fold_left (fun s machine => attempt (machine_step g machine) s)
                     (machines s) s in
  let s := fold_left (fun s truck => attempt (truck_step truck) s)
                     (trucks s) s in
  let s := attempt client_step_time s in
  (s, get_state s).

Definition reset (g : rng) (s : t) : t * Result observation :=
  let s := set_current_enacted_strategy 0 s in
  let s := set_client TheClient (Client.reset (client s)) s in
  let s := fold_left (fun s machine =>
                        set_machine machine (Machine.reset (get_machine machine s)) s)
                     (machines s) s in
  let s := fold_left (fun s truck =>
                        set_truck truck (Truck.reset (get_truck truck s)) s)
                     (trucks s) s in
  let '(c, placed) := Client.place_order (rand_val g) (client s) in
  let s := set_client TheClient c s in
  let s :=
    match placed with
    | Ok p => fst (m1_processing_full (set_current_priority (Some p) s))
    | Raise _ => s
    end in
  (s, get_state s).

(** [__init__]: a raised error leaves no System. *)
Definition init (g : rng) : Result t :=
  let client := Client.init Client.default_priority_distribution
                            Client.default_order_penalties in
  let m1 := Machine.init "M1" in
  let m2 := Machine.set_source_machine M1 (Machine.init "M2") in
  let small_truck := Truck.init (1 # 3) 2 "Small Truck" in
  let big_truck := Truck.init 1 3 "Big Truck" in
  let small_truck := Truck.set_client TheClient (Truck.set_machine M2 small_truck) in
  let big_truck := Truck.set_client TheClient (Truck.set_machine M2 big_truck) in
  match Client.place_order (rand_val g) client with
  | (_, Raise e) => Raise e
  | (client, Ok p) =>
      let s := mk client m1 m2 small_truck big_truck 0 0 (Some p)
                  [M1; M2] [SmallTruck; BigTruck] 0 in
      match m1_processing_full s with
      | (_, Raise e) => Raise e
      | (s, Ok _) => Ok s
      end
  end.

(** The dispatch table of [action]; the model covers [repr=False], the
    form [enact_strategy] uses, which returns the observation itself. *)
Definition action_methods : list (string * (rng -> t -> t * Result observation)) :=
  [ ("m1_processing_third", fun _ => m1_processing_third);
    ("m1_processing_half", fun _ => m1_processing_half);
    ("m1_processing_full", fun _ => m1_processing_full);
    ("m1_maintenance", fun _ => m1_maintenance);
    ("m2_processing_third", fun _ => m2_processing_third);
    ("m2_processing_half", fun _ => m2_processing_half);
    ("m2_processing_full", fun _ => m2_processing_full);
    ("m2_maintenance", fun _ => m2_maintenance);
    ("small_truck_shipment", fun _ => small_truck_shipment);
    ("big_truck_shipment", fun _ => big_truck_shipment);
    ("step", step);
    ("reset", reset) ]%string.

Fixpoint lookup {A} (key : string) (d : list (string * A)) : option A :=
  match d with
  | [] => None
  | (k, v) :: rest => if String.eqb key k then Some v else lookup key rest
  end.

Definition action (action_str : string) (g : rng) (s : t) : t * Result observation :=
  match lookup action_str action_methods with
  | Some method => method g s
  | None => (s, Raise ValueError)
  end.

Definition alphabet : list string :=
  [ "m1_processing_third"; "m1_processing_half"; "m1_processing_full";
    "m1_maintenance"; "m2_processing_third"; "m2_processing_half";
    "m2_processing_full"; "m2_maintenance"; "small_truck_shipment";
    "big_truck_shipment"; "step" ]%string.

(** [sub in s] on strings. *)
Definition contains (sub s : string) : bool :=
  match String.index 0 sub s with Some _ => true | None => false end.

(** The decision variables [enact_strategy] computes before it picks a
    command. *)
Record decision : Type := {
  m1_running : bool;
  m2_running : bool;
  ts_running : bool;
  tb_running : bool;
  m1_maintenance_active : bool;
  m2_maintenance_active : bool;
  processing_m2_amount : Q;
  shipped_m2_amount : Q;
  client_quantity : Q;
  total_material : Q;
  m1_stored_raw : Q;
  m2_stored_raw : Q
}.

Definition decide (s : t) : decision :=
  let m1_status := Machine.str_state (Machine.state (m1 s)) in
  let m1_stored := Machine.stored_output (m1 s) in
  let m2_status := Machine.str_state (Machine.state (m2 s)) in
  let m2_stored := Machine.stored_output (m2 s) in
  let client_quantity := Client.order_quantity (client s) in
  let m1_running := negb (String.eqb m1_status "idle") in
  let m2_running := negb (String.eqb m2_status "idle") in
  let ts_running := negb (Truck.state_eqb (Truck.state (small_truck s)) Truck.available) in
  let tb_running := negb (Truck.state_eqb (Truck.state (big_truck s)) Truck.available) in
  let processing_m2_amount :=
    if String.prefix "processing" m2_status then
      if contains "full" m2_status then 1
      else if contains "half" m2_status then 1 # 2
      else if contains "third" m2_status then 1 # 3
      else 0
    else 0 in
  let shipped_m2_amount := 0 in
  let shipped_m2_amount :=
    if ts_running then shipped_m2_amount + Truck.current_load (small_truck s)
    else shipped_m2_amount in
  let shipped_m2_amount :=
    if tb_running then shipped_m2_amount + Truck.current_load (big_truck s)
    else shipped_m2_amount in
  let total_material :=
    m1_stored + processing_m2_amount + m2_stored + shipped_m2_amount
    + client_quantity in
  {| m1_running := m1_running;
     m2_running := m2_running;
     ts_running := ts_running;
     tb_running := tb_running;
     m1_maintenance_active :=
       Machine.maintenance_active (m1 s) || String.eqb m1_status "maintenance";
     m2_maintenance_active :=
       Machine.maintenance_active (m2 s) || String.eqb m2_status "maintenance";
     processing_m2_amount := processing_m2_amount;
     shipped_m2_amount := shipped_m2_amount;
     client_quantity := client_quantity;
     total_material := total_material;
     m1_stored_raw := m1_stored;
     m2_stored_raw := m2_stored |}.

(** The [if]/[elif] chain of [enact_strategy]. *)
Definition choose_command (d : decision) : string :=
  if negb (m2_maintenance_active d) then "m2_maintenance"
  else if negb (m2_running d) && Qlt_bool 0 (m1_stored_raw d)
          && Qlt_bool (client_quantity d) 1 then "m2_processing_third"
  else if negb (m1_running d) && negb (m1_maintenance_active d)
          && Qlt_bool (client_quantity d) 1 then "m1_maintenance"
  else if negb (m1_running d) && Qlt_bool (client_quantity d) 1
       then "m1_processing_full"
  else if negb (ts_running d) && Qlt_bool 0 (m2_stored_raw d)
       then "small_truck_shipment"
  else if negb (ts_running d) && negb (tb_running d) && Qlt_bool 0 (m2_stored_raw d)
       then "big_truck_shipment"
  else "step".

(** What [enact_strategy] returns: the terminal string, or the
    dictionary [all_components] it then renders as text (the rendering
    itself, with its two-decimal formatting and component filter, is
    outside the model). *)
Record components : Type := {
  base : observation;
  command_executed : string;
  current_revenue : Q;
  variables : decision
}.

Inductive strategy_result : Type :=
| Terminal (text : string)
| Components (c : components).

Definition enact_strategy (g : rng) (s : t) : t * Result strategy_result :=
  if Client.state_eqb (Client.state (client s)) Client.completed
     && Qle_bool 1 (Client.order_quantity (client s)) then
    match Client.time_limit (client s) with
    | None => (s, Raise TypeError)
    | Some tl =>
        (s, Ok (Terminal
                  ("Completed "
                   ++ str_bool (Client.time_passed (client s) <=? tl)%Z
                   ++ " "
                   ++ Client.str_opt_priority (Client.current_priority (client s)))))
    end
  else
    let d := decide s in
    let command := choose_command d in
    match action command g s with
    | (s, Raise e) => (s, Raise e)
    | (s, Ok state) =>
        let client_state := Client.get_state (client s) in
        (s, Ok (Components
                  {| base := state;
                     command_executed := command;
                     current_revenue := Client.sd_current_payment client_state;
                     variables := d |}))
    end.

(** Calls a controller can make, and the system after a sequence of
    them. *)
Inductive call : Type :=
| Action (action_str : string) (g : rng)
| EnactStrategy (g : rng).

Definition apply_call (c : call) (s : t) : t :=
  match c with
  | Action a g => fst (action a g s)
  | EnactStrategy g => fst (enact_strategy g s)
  end.

Definition run (calls : list call) (s : t) : t :=
  fold_left (fun s c => apply_call c s) calls s.

(** A system some controller can be looking at. *)
Inductive reachable : t -> Prop :=
| reachable_init g s : init g = Ok s -> reachable s
| reachable_call c s : reachable s -> reachable (apply_call c s).

End System.

(** ** The [quantize] helper in IEEE binary64

    CPython floats are binary64 with round-to-nearest-even; the Standard
    Library's [SpecFloat] gives the operations.  When the clamp returns the
    int 0 or 1 Python goes on in integers, with the same result as the
    float path taken here. *)

Module Binary64.

Definition prec : Z := 53.
Definition emax : Z := 1024.

Definition of_int (z : Z) : spec_float := binary_normalize prec emax z 0 false.
Definition add : spec_float -> spec_float -> spec_float := SFadd prec emax.
Definition mul : spec_float -> spec_float -> spec_float := SFmul prec emax.
Definition div : spec_float -> spec_float -> spec_float := SFdiv prec emax.

Definition py_min (a b : spec_float) : spec_float := if SFltb b a then b else a.
Definition py_max (a b : spec_float) : spec_float := if SFltb a b then b else a.

(** [int(x)]: truncation toward zero; an infinity or a NaN raises. *)
Definition int_of (x : spec_float) : Result Z :=
  match x with
  | S754_zero _ => Ok 0%Z
  | S754_finite s m e =>
      let z := if (0 <=? e)%Z then (Zpos m * 2 ^ e)%Z
               else Z.quot (Zpos m) (2 ^ (- e)) in
      Ok (if s then (- z)%Z else z)
  | S754_infinity _ | S754_nan => Raise ValueError
  end.

Definition quantize (value : spec_float) : Result spec_float :=
  let value := py_max (of_int 0) (py_min (of_int 1) value) in
  match int_of (mul value (of_int 6)) with
  | Raise e => Raise e
  | Ok sixths => Ok (div (of_int sixths) (of_int 6))
  end.

(** The floats [0.5] and [1/3], and the stored output of a machine that
    produced a half and then a third. *)
Definition one_half : spec_float := div (of_int 1) (of_int 2).
Definition one_third : spec_float := div (of_int 1) (of_int 3).
Definition half_plus_third : spec_float := add (add (of_int 0) one_half) one_third.

End Binary64.

(** ** Client in binary64 (client.py)

    [client.py] once more, with its quantities and payments in the
    arithmetic Python runs them in.  [order_quantity] and
    [current_payment] start as the int 0, which [+] converts to 0.0; the
    rates of the penalty table are held as the doubles [quantity * rate]
    converts them to; a comparison with the int 0 or 1 is the comparison
    with 0.0 or 1.0, and any comparison with a NaN is false. *)

Module Client64.

Definition zero : spec_float := Binary64.of_int 0.
Definition one : spec_float := Binary64.of_int 1.

(** [x <= y], [x < y] and [x == y] on floats. *)
Definition leb : spec_float -> spec_float -> bool := SFleb.
Definition ltb : spec_float -> spec_float -> bool := SFltb.
Definition eqb : spec_float -> spec_float -> bool := SFeqb.

Record t : Type := mk {
  state : Client.state_t;
  priority_distribution : list (Client.priority * spec_float);
  order_penalties : Client.priority -> Z * spec_float * spec_float;
  time_passed : Z;
  order_quantity : spec_float;
  current_payment : spec_float;
  current_priority : option Client.priority;
  time_limit : option Z;
  in_time_payment : option spec_float;
  out_of_time_payment : option spec_float
}.

(** The literals [0.4], [0.5] and [0.1]. *)
Definition default_priority_distribution : list (Client.priority * spec_float) :=
  [(Client.low, Binary64.div (Binary64.of_int 4) (Binary64.of_int 10));
   (Client.medium, Binary64.div (Binary64.of_int 5) (Binary64.of_int 10));
   (Client.high, Binary64.div (Binary64.of_int 1) (Binary64.of_int 10))].

Definition default_order_penalties (p : Client.priority) : Z * spec_float * spec_float :=
  match p with
  | Client.low => (20%Z, Binary64.of_int 5, Binary64.of_int 1)
  | Client.medium => (15%Z, Binary64.of_int 10, Binary64.of_int 2)
  | Client.high => (10%Z, Binary64.of_int 15, Binary64.of_int 1)
  end.

(** [__init__] *)
Definition init (dist : list (Client.priority * spec_float))
           (pen : Client.priority -> Z * spec_float * spec_float) : t :=
  {| state := Client.idle;
     priority_distribution := dist;
     order_penalties := pen;
     time_passed := 0;
     order_quantity := zero;
     current_payment := zero;
     current_priority := None;
     time_limit := None;
     in_time_payment := None;
     out_of_time_payment := None |}.

(** The loop of [place_order]. *)
Fixpoint select_priority (rand_val cumulative_prob : spec_float)
         (items : list (Client.priority * spec_float)) : option Client.priority :=
  match items with
  | [] => None
  | (p, prob) :: rest =>
      let cumulative_prob := Binary64.add cumulative_prob prob in
      if leb rand_val cumulative_prob then Some p
      else select_priority rand_val cumulative_prob rest
  end.

Definition place_order (rand_val : spec_float) (c : t) : t * Result Client.priority :=
  if negb (Client.state_eqb (state c) Client.idle) then (c, Raise ValueError)
  else
    let chosen :=
      match select_priority rand_val zero (priority_distribution c) with
      | Some p => Some p
      | None => current_priority c
      end in
    match chosen with
    | None => (c, Raise KeyError)
    | Some p =>
        let '(tl, itp, otp) := order_penalties c p in
        ({| state := Client.order_placed;
            priority_distribution := priority_distribution c;
            order_penalties := order_penalties c;
            time_passed := 0;
            order_quantity := zero;
            current_payment := zero;
            current_priority := Some p;
            time_limit := Some tl;
            in_time_payment := Some itp;
            out_of_time_payment := Some otp |}, Ok p)
    end.

Definition active (c : t) : bool :=
  Client.state_eqb (state c) Client.order_placed
  || Client.state_eqb (state c) Client.wait_for_completion.

Definition applicable_rate (c : t) : Result spec_float :=
  match time_limit c with
  | None => Raise TypeError
  | Some tl =>
      if (time_passed c <=? tl)%Z then
        match in_time_payment c with Some r => Ok r | None => Raise TypeError end
      else
        match out_of_time_payment c with Some r => Ok r | None => Raise TypeError end
  end.

Definition quantity_shipped (quantity : spec_float) (c : t) : t * Result spec_float :=
  if negb (active c) then (c, Raise ValueError)
  else if leb quantity zero || ltb one (Binary64.add (order_quantity c) quantity) then
    (c, Raise ValueError)
  else
    match applicable_rate c with
    | Raise e => (c, Raise e)
    | Ok rate =>
        let payment := Binary64.mul quantity rate in
        let order_quantity' := Binary64.add (order_quantity c) quantity in
        ({| state := if leb one order_quantity' then Client.completed
                     else Client.wait_for_completion;
            priority_distribution := priority_distribution c;
            order_penalties := order_penalties c;
            time_passed := time_passed c;
            order_quantity := order_quantity';
            current_payment := Binary64.add (current_payment c) payment;
            current_priority := current_priority c;
            time_limit := time_limit c;
            in_time_payment := in_time_payment c;
            out_of_time_payment := out_of_time_payment c |}, Ok payment)
    end.

Definition step_time (c : t) : t * Result bool :=
  if active c then
    let time_passed' := (time_passed c + 1)%Z in
    let c' :=
      {| state := state c;
         priority_distribution := priority_distribution c;
         order_penalties := order_penalties c;
         time_passed := time_passed';
         order_quantity := order_quantity c;
         current_payment := current_payment c;
         current_priority := current_priority c;
         time_limit := time_limit c;
         in_time_payment := in_time_payment c;
         out_of_time_payment := out_of_time_payment c |} in
    match time_limit c with
    | None => (c', Raise TypeError)
    | Some tl => (c', Ok (time_passed' <=? tl)%Z)
    end
  else (c, Ok false).

Definition reset (c : t) : t :=
  {| state := Client.idle;
     priority_distribution := priority_distribution c;
     order_penalties := order_penalties c;
     time_passed := 0;
     order_quantity := zero;
     current_payment := zero;
     current_priority := None;
     time_limit := None;
     in_time_payment := None;
     out_of_time_payment := None |}.

(** The calls a caller can make on a client, [get_state] apart (it
    changes nothing), and the client after a sequence of them, results
    dropped. *)
Inductive op : Type :=
| PlaceOrder (rand_val : spec_float)
| QuantityShipped (quantity : spec_float)
| StepTime
| Reset.

Definition apply_op (o : op) (c : t) : t :=
  match o with
  | PlaceOrder r => fst (place_order r c)
  | QuantityShipped q => fst (quantity_shipped q c)
  | StepTime => fst (step_time c)
  | Reset => reset c
  end.

Definition run (ops : list op) (c : t) : t :=
  fold_left (fun c o => apply_op o c) ops c.

(** A client with an order has the terms of that order. *)
Definition has_terms (c : t) : Prop :=
  state c <> Client.idle ->
  exists p tl itp otp,
    current_priority c = Some p /\ time_limit c = Some tl /\
    in_time_payment c = Some itp /\ out_of_time_payment c = Some otp.

(** What [place_order] leaves when it picks priority [p]. *)
Definition placed (c : t) (p : Client.priority) : t :=
  {| state := Client.order_placed;
     priority_distribution := priority_distribution c;
     order_penalties := order_penalties c;
     time_passed := 0;
     order_quantity := zero;
     current_payment := zero;
     current_priority := Some p;
     time_limit := Some (fst (fst (order_penalties c p)));
     in_time_payment := Some (snd (fst (order_penalties c p)));
     out_of_time_payment := Some (snd (order_penalties c p)) |}.

(** The cumulative thresholds the loop of [place_order] reaches on the
    default distribution: the doubles [0.4], [0.4 + 0.5] and
    [0.4 + 0.5 + 0.1]. *)
Definition threshold_low : spec_float := S754_finite false 7205759403792794 (-54).
Definition threshold_medium : spec_float := S754_finite false 8106479329266893 (-53).
Definition threshold_high : spec_float := S754_finite false 4503599627370496 (-52).

(** A client with a third of its order received, and the load that the
    subtraction [1 - 1/3] leaves for the rest. *)
Definition third_received : t :=
  run [PlaceOrder zero; QuantityShipped Binary64.one_third]
      (init default_priority_distribution default_order_penalties).
Definition rest_of_order : spec_float :=
  SFsub Binary64.prec Binary64.emax one Binary64.one_third.

End Client64.

(** ** Vocabulary for statements about the line *)

Module Line.
Import System.

(** The wiring [System.__init__] sets up and no method changes. *)
Record wired (s : t) : Prop := {
  wired_machines : machines s = [M1; M2];
  wired_trucks : trucks s = [SmallTruck; BigTruck];
  wired_m1 : Machine.source_machine (m1 s) = None;
  wired_m2 : Machine.source_machine (m2 s) = Some M1;
  wired_ts_source : Truck.source_machine (small_truck s) = Some M2;
  wired_ts_client : Truck.client (small_truck s) = Some TheClient;
  wired_tb_source : Truck.source_machine (big_truck s) = Some M2;
  wired_tb_client : Truck.client (big_truck s) = Some TheClient
}.

(** Raw material inside a machine that is processing a batch. *)
Definition in_flight (m : Machine.t) : Q :=
  match Machine.state m, Machine.current_batch_size m with
  | Machine.processing, Some b => Machine.quantity_of b
  | _, _ => 0
  end.

(** Load of a truck on the road. *)
Definition in_transit (k : Truck.t) : Q :=
  match Truck.state k with
  | Truck.delivering => Truck.current_load k
  | Truck.available => 0
  end.

(** Material downstream of M1's processing: M1's stored output, M2's
    in-flight input and stored output, the loads on the road and what the
    client has received. *)
Definition downstream (s : t) : Q :=
  Machine.stored_output (m1 s) + in_flight (m2 s) + Machine.stored_output (m2 s)
  + in_transit (small_truck s) + in_transit (big_truck s)
  + Client.order_quantity (client s).

Definition terminal (s : t) : bool :=
  Client.state_eqb (Client.state (client s)) Client.completed
  && Qle_bool 1 (Client.order_quantity (client s)).

(** The rules of the built-in strategy as the specification lists them:
    a guard on the state and the command to issue. *)
Definition maintained (m : Machine.t) : bool :=
  Machine.maintenance_active m || Machine.state_eqb (Machine.state m) Machine.maintenance.

Definition client_unfulfilled (s : t) : bool :=
  Qlt_bool (Client.order_quantity (client s)) 1.

Definition spec_rules : list ((t -> bool) * string) :=
  [ (fun s => negb (maintained (m2 s)), "m2_maintenance");
    (fun s => Machine.is_idle (m2 s) && Qlt_bool 0 (Machine.stored_output (m1 s))
              && client_unfulfilled s, "m2_processing_third");
    (fun s => Machine.is_idle (m1 s) && negb (maintained (m1 s))
              && client_unfulfilled s, "m1_maintenance");
    (fun s => Machine.is_idle (m1 s) && client_unfulfilled s, "m1_processing_full");
    (fun s => Truck.is_available (small_truck s)
              && Qlt_bool 0 (Machine.stored_output (m2 s)), "small_truck_shipment");
    (fun s => Truck.is_available (small_truck s) && Truck.is_available (big_truck s)
              && Qlt_bool 0 (Machine.stored_output (m2 s)), "big_truck_shipment") ]%string.

Fixpoint first_match (rules : list ((t -> bool) * string)) (s : t) : string :=
  match rules with
  | [] => "step"
  | (guard, command) :: rest => if guard s then command else first_match rest s
  end.

(** The ten per-entity commands, the single request each one names, and
    the method that implements it. *)
Inductive entity_command : Set :=
| C_m1_processing_third | C_m1_processing_half | C_m1_processing_full
| C_m1_maintenance
| C_m2_processing_third | C_m2_processing_half | C_m2_processing_full
| C_m2_maintenance
| C_small_truck_shipment | C_big_truck_shipment.

Definition request_of (c : entity_command) : t -> t * Result bool :=
  match c with
  | C_m1_processing_third => machine_request_processing M1 "third"
  | C_m1_processing_half => machine_request_processing M1 "half"
  | C_m1_processing_full => machine_request_processing M1 "full"
  | C_m1_maintenance => machine_request_maintenance M1
  | C_m2_processing_third => machine_request_processing M2 "third"
  | C_m2_processing_half => machine_request_processing M2 "half"
  | C_m2_processing_full => machine_request_processing M2 "full"
  | C_m2_maintenance => machine_request_maintenance M2
  | C_small_truck_shipment => truck_request_shipment SmallTruck
  | C_big_truck_shipment => truck_request_shipment BigTruck
  end.

Definition method_of (c : entity_command) : t -> t * Result observation :=
  match c with
  | C_m1_processing_third => m1_processing_third
  | C_m1_processing_half => m1_processing_half
  | C_m1_processing_full => m1_processing_full
  | C_m1_maintenance => m1_maintenance
  | C_m2_processing_third => m2_processing_third
  | C_m2_processing_half => m2_processing_half
  | C_m2_processing_full => m2_processing_full
  | C_m2_maintenance => m2_maintenance
  | C_small_truck_shipment => small_truck_shipment
  | C_big_truck_shipment => big_truck_shipment
  end.

(** The elementary updates every method of [System] is made of. *)
Inductive prim : t -> t -> Prop :=
| prim_request_processing r b s : prim s (fst (machine_request_processing r b s))
| prim_request_maintenance r s : prim s (fst (machine_request_maintenance r s))
| prim_request_shipment k s : prim s (fst (truck_request_shipment k s))
| prim_machine_step g r s : prim s (fst (machine_step g r s))
| prim_truck_step k s : prim s (fst (truck_step k s))
| prim_client_step_time s : prim s (fst (client_step_time s))
| prim_reset_counter s : prim s (set_current_enacted_strategy 0 s)
| prim_reset_client s : prim s (set_client TheClient (Client.reset (client s)) s)
| prim_reset_machine r s :
    prim s (set_machine r (Machine.reset (get_machine r s)) s)
| prim_reset_truck k s : prim s (set_truck k (Truck.reset (get_truck k s)) s)
| prim_place_order x s :
    prim s (set_client TheClient (fst (Client.place_order x (client s))) s)
| prim_set_priority p s : prim s (set_current_priority p s).

Inductive prims : t -> t -> Prop :=
| prims_refl s : prims s s
| prims_step s1 s2 s3 : prims s1 s2 -> prim s2 s3 -> prims s1 s3.

(** Two machines that differ at most in how the same stored quantity is
    written as a fraction. *)
Definition same_machine (a b : Machine.t) : Prop :=
  Machine.stored_output a == Machine.stored_output b /\
  b = Machine.set_stored_output a (Machine.stored_output b).

(** The client refuses this quantity. *)
Definition rejects (c : Client.t) (quantity : Q) : bool :=
  raised (snd (Client.quantity_shipped quantity c)).

(** A run of [n] ticks, the generator's draws given per tick. *)
Definition ticks (gs : list rng) : list call := map (Action "step") gs.

(** Draws: the generator always lands on the first entry of a table (with
    the default tables, the full yield), or on a given entry. *)
Definition first_entry : rng := {| rand_val := 0; choice := fun _ => 0%nat |}.
Definition entry (n : nat) : rng := {| rand_val := 0; choice := fun _ => n |}.

(** The objects [__init__] wires together, before the order is placed. *)
Definition blank : t :=
  mk (Client.init Client.default_priority_distribution Client.default_order_penalties)
     (Machine.init "M1")
     (Machine.set_source_machine M1 (Machine.init "M2"))
     (Truck.set_client TheClient (Truck.set_machine M2 (Truck.init (1 # 3) 2 "Small Truck")))
     (Truck.set_client TheClient (Truck.set_machine M2 (Truck.init 1 3 "Big Truck")))
     0 0 None [M1; M2] [SmallTruck; BigTruck] 0.

(** A fresh system (the generator lands on the first priority). *)
Definition fresh : t :=
  match init first_entry with Ok s => s | Raise _ => blank end.

(** A truck about to arrive at a client that refuses its load. *)
Record stuck (k : tref) (s : t) : Prop := {
  stuck_state : Truck.state (get_truck k s) = Truck.delivering;
  stuck_time : (Truck.time_remaining (get_truck k s) <= 1)%Z;
  stuck_refused : rejects (client s) (Truck.current_load (get_truck k s)) = true
}.

(** Truck [k] is the object [truck] and the client refuses its load. *)
Record held (k : tref) (truck : Truck.t) (s : t) : Prop := {
  held_wired : wired s;
  held_inv : Client.inv (client s);
  held_truck : get_truck k s = truck;
  held_refused : rejects (client s) (Truck.current_load truck) = true
}.

(** A system in which the big truck carries a whole order to a client
    that has already received a third: M2 worked two full batches, the
    big truck took one unit, the small truck a third, and two ticks
    passed. *)
Definition jammed : t :=
  run ([Action "step" first_entry; Action "step" first_entry; Action "step" first_entry;
        Action "m2_processing_full" first_entry; Action "m1_processing_full" first_entry;
        Action "step" first_entry; Action "step" first_entry; Action "step" first_entry;
        Action "m2_processing_full" first_entry;
        Action "step" first_entry; Action "step" first_entry; Action "step" first_entry;
        Action "big_truck_shipment" first_entry; Action "small_truck_shipment" first_entry;
        Action "step" first_entry; Action "step" first_entry]%string) fresh.

(** A system in which M1 stores a third (its full batch yielded a third)
    and M2 is idle. *)
Definition starved : t :=
  run ([Action "step" first_entry; Action "step" first_entry;
        Action "step" (entry 2)]%string) fresh.

(** Stored quantities are never negative and a truck holds something. *)
Record sound (s : t) : Prop := {
  sound_m1 : 0 <= Machine.stored_output (m1 s);
  sound_m2 : 0 <= Machine.stored_output (m2 s);
  sound_ts : 0 < Truck.capacity (small_truck s);
  sound_tb : 0 < Truck.capacity (big_truck s)
}.

End Line.

(** ** Vocabulary for further properties of the code *)

Module More.
Import System Line.

(** The priority the default distribution (0.4, 0.5, 0.1) gives a draw. *)
Definition default_priority (r : Q) : Client.priority :=
  if Qle_bool r (2 # 5) then Client.low
  else if Qle_bool r (9 # 10) then Client.medium
  else Client.high.

Definition deadline_of (pen : Client.priority -> Z * Q * Q) (p : Client.priority) : Z :=
  fst (fst (pen p)).
Definition in_time_rate (pen : Client.priority -> Z * Q * Q) (p : Client.priority) : Q :=
  snd (fst (pen p)).
Definition late_rate (pen : Client.priority -> Z * Q * Q) (p : Client.priority) : Q :=
  snd (pen p).

(** What [place_order] leaves when it picks priority [p]. *)
Definition placed (c : Client.t) (p : Client.priority) : Client.t :=
  {| Client.state := Client.order_placed;
     Client.priority_distribution := Client.priority_distribution c;
     Client.order_penalties := Client.order_penalties c;
     Client.time_passed := 0;
     Client.order_quantity := 0;
     Client.current_payment := 0;
     Client.current_priority := Some p;
     Client.time_limit := Some (deadline_of (Client.order_penalties c) p);
     Client.in_time_payment := Some (in_time_rate (Client.order_penalties c) p);
     Client.out_of_time_payment := Some (late_rate (Client.order_penalties c) p) |}.

(** [n] calls of [Machine.step], the generator landing on [draw] whenever
    it is asked. *)
Fixpoint steps (n : nat) (draw : nat) (m : Machine.t) : Machine.t :=
  match n with
  | O => m
  | S n => steps n draw (fst (Machine.step draw m))
  end.

(** The quantity an outcome adds to the stored output. *)
Definition yield (o : Machine.outcome) : Q :=
  match o with
  | Machine.produced b => Machine.quantity_of b
  | Machine.none => 0
  end.

(** The outcome table a machine samples from for batch [b]. *)
Definition table (m : Machine.t) (b : Machine.batch) : list (Machine.outcome * Q) :=
  if Machine.maintenance_active m then Machine.maintenance_effect m b
  else Machine.success_probabilities m b.

(** Everything [System.__init__] fixes once and for all: the
    configuration of the five objects, and the two counters no method
    updates. *)
Record configured (s : t) : Prop := {
  conf_client_dist :
    Client.priority_distribution (client s) = Client.default_priority_distribution;
  conf_client_pen : Client.order_penalties (client s) = Client.default_order_penalties;
  conf_m1 : Machine.reset (m1 s) = Machine.init "M1";
  conf_m2 : Machine.reset (m2 s) = Machine.set_source_machine M1 (Machine.init "M2");
  conf_ts : Truck.reset (small_truck s)
            = Truck.set_client TheClient
                (Truck.set_machine M2 (Truck.init (1 # 3) 2 "Small Truck"));
  conf_tb : Truck.reset (big_truck s)
            = Truck.set_client TheClient
                (Truck.set_machine M2 (Truck.init 1 3 "Big Truck"));
  conf_time : time s = 0%Z;
  conf_profit : total_profit s = 0%Z;
  conf_machines : machines s = [M1; M2];
  conf_trucks : trucks s = [SmallTruck; BigTruck]
}.

(** What a truck carries, by state. *)
Definition load_ok (k : Truck.t) : Prop :=
  match Truck.state k with
  | Truck.available => Truck.current_load k = 0
  | Truck.delivering =>
      0 < Truck.current_load k /\ Truck.current_load k <= Truck.capacity k
  end.

(** The observation of a system just built for an order of priority [p]. *)
Definition fresh_observation (p : Client.priority) : observation :=
  {| client_current_priority := Client.str_priority p;
     quantity_shipped_to_the_client := quantize 0;
     time_to_penalty := deadline_of Client.default_order_penalties p;
     m1_status := "processing_full";
     m1_stored := quantize 0;
     m1_to_completion := 3;
     m2_status := "idle";
     m2_stored := quantize 0;
     m2_to_completion := 0;
     ts_status := "idle";
     ts_to_completion := 0;
     tb_status := "idle";
     tb_to_completion := 0 |}.

(** A run of calls none of which is [reset]. *)
Definition no_reset (c : call) : bool :=
  match c with
  | Action a _ => negb (String.eqb a "reset")
  | EnactStrategy _ => true
  end.

End More.

Module Ledger.
Import System Line More.

(** A machine at work has a batch and a countdown still to run. *)
Definition machine_ok (m : Machine.t) : Prop :=
  match Machine.state m with
  | Machine.idle => Machine.current_batch_size m = None
  | Machine.processing =>
      (exists b, Machine.current_batch_size m = Some b) /\
      (1 <= Machine.time_remaining m)%Z
  | Machine.maintenance =>
      Machine.current_batch_size m = None /\ (1 <= Machine.time_remaining m)%Z
  end.

(** The status tags [get_state] can give a machine and a truck. *)
Definition machine_tags : list string :=
  ["idle"; "maintenance"; "processing_full"; "processing_half"; "processing_third"]%string.
Definition truck_tags : list string :=
  ["idle"; "shipping_zero"; "shipping_third"; "shipping_half"; "shipping_full"]%string.
Definition priority_tags : list string := ["low"; "medium"; "high"; "none"]%string.

(** A multiple of 1/6 between 0 and 1. *)
Definition sixth (q : Q) : Prop := exists k, (0 <= k <= 6)%Z /\ q == inject_Z k / 6.

End Ledger.

(** * Properties *)

(** ** Order facts on the boolean tests *)

Lemma Qlt_bool_iff x y : Qlt_bool x y = true <-> x < y.
Proof.
  unfold Qlt_bool. rewrite negb_true_iff. split; intro H.
  - apply Qnot_le_lt. intro L. apply Qle_bool_iff in L. congruence.
  - destruct (Qle_bool y x) eqn:E; trivial.
    apply Qle_bool_iff in E. exfalso. apply (Qle_not_lt _ _ E H).
Qed.

Lemma Qlt_bool_false x y : Qlt_bool x y = false <-> y <= x.
Proof.
  unfold Qlt_bool. rewrite negb_false_iff. apply Qle_bool_iff.
Qed.

Lemma Qle_bool_false x y : Qle_bool x y = false <-> y < x.
Proof.
  rewrite <- Qlt_bool_iff. unfold Qlt_bool. now rewrite negb_true_iff.
Qed.

(** Turns the boolean tests among the hypotheses into order facts. *)
Ltac qtests :=
  repeat match goal with
  | H : Qle_bool _ _ = true |- _ => apply Qle_bool_iff in H
  | H : Qle_bool _ _ = false |- _ => apply Qle_bool_false in H
  | H : Qlt_bool _ _ = true |- _ => apply Qlt_bool_iff in H
  | H : Qlt_bool _ _ = false |- _ => apply Qlt_bool_false in H
  | H : Qeq_bool _ _ = true |- _ => apply Qeq_bool_iff in H
  | H : Qeq_bool _ _ = false |- _ => apply Qeq_bool_neq in H
  | H : (_ || _)%bool = false |- _ => apply orb_false_iff in H; destruct H
  | H : (_ && _)%bool = true |- _ => apply andb_true_iff in H; destruct H
  | H : negb _ = true |- _ => apply negb_true_iff in H
  | H : negb _ = false |- _ => apply negb_false_iff in H
  end.

Lemma py_min_spec a b :
  (b < a /\ py_min a b = b) \/ (a <= b /\ py_min a b = a).
Proof.
  unfold py_min. destruct (Qlt_bool b a) eqn:E; qtests; auto.
Qed.

Lemma py_max_spec a b :
  (a < b /\ py_max a b = b) \/ (b <= a /\ py_max a b = a).
Proof.
  unfold py_max. destruct (Qlt_bool a b) eqn:E; qtests; auto.
Qed.

(** ** The [quantize] helper *)

Module QuantizeFacts.
Import System.

(** The clamp of [quantize], with the library's [Qmax] and [Qmin]. *)
Lemma clamp_minmax v : py_max 0 (py_min 1 v) == Qmax 0 (Qmin 1 v).
Proof.
  destruct (py_min_spec 1 v) as [[L ->]|[L ->]];
    [rewrite (Q.min_r 1 v) by lra|rewrite (Q.min_l 1 v) by lra].
  - destruct (py_max_spec 0 v) as [[L' ->]|[L' ->]];
      [rewrite Q.max_r by lra|rewrite Q.max_l by lra]; reflexivity.
  - destruct (py_max_spec 0 1) as [[L' ->]|[L' ->]];
      [rewrite Q.max_r by lra|rewrite Q.max_l by lra]; reflexivity.
Qed.

Lemma clamp_bounds v : 0 <= py_max 0 (py_min 1 v) <= 1.
Proof.
  destruct (py_min_spec 1 v) as [[L ->]|[L ->]].
  - destruct (py_max_spec 0 v) as [[L' ->]|[L' ->]]; lra.
  - destruct (py_max_spec 0 1) as [[L' ->]|[L' ->]]; lra.
Qed.

(** On non-negative numbers truncation is the floor. *)
Lemma int_of_floor x : 0 <= x -> int_of x = Qfloor x.
Proof.
  destruct x as [n d]. unfold Qle, int_of, Qfloor. simpl. intros L.
  apply Z.quot_div_nonneg; lia.
Qed.

Lemma sixths_floor v :
  int_of (py_max 0 (py_min 1 v) * 6) = Qfloor (6 * Qmax 0 (Qmin 1 v)).
Proof.
  rewrite int_of_floor.
  - apply Qfloor_comp. rewrite clamp_minmax. ring.
  - pose proof (clamp_bounds v). lra.
Qed.

(** Over the rationals [quantize] is the formula
    [floor(6 * max(0, min(1, q))) / 6]. *)
Lemma quantize_formula q :
  quantize q = inject_Z (Qfloor (6 * Qmax 0 (Qmin 1 q))) / 6.
Proof. unfold quantize. rewrite sixths_floor. reflexivity. Qed.

(** Equal rationals, however written, quantize to the same fraction. *)
Lemma quantize_compat q q' : q == q' -> quantize q = quantize q'.
Proof.
  intros E. rewrite !quantize_formula.
  assert (F : Qfloor (6 * Qmax 0 (Qmin 1 q)) = Qfloor (6 * Qmax 0 (Qmin 1 q'))).
  { apply Qfloor_comp. rewrite E. reflexivity. }
  rewrite F. reflexivity.
Qed.

Lemma quantize_sixths q :
  exists k, (0 <= k <= 6)%Z /\ quantize q == inject_Z k / 6.
Proof.
  exists (Qfloor (6 * Qmax 0 (Qmin 1 q))). rewrite quantize_formula.
  split; [|reflexivity].
  pose proof (clamp_bounds q) as [L U]. rewrite clamp_minmax in L, U.
  split.
  - apply (Qfloor_resp_le 0). lra.
  - apply (Qfloor_resp_le _ 6). lra.
Qed.

End QuantizeFacts.

(** ** Client *)

Module ClientFacts.
Import Client.

Lemma state_eqb_eq a b : state_eqb a b = true <-> a = b.
Proof. destruct a, b; simpl; split; congruence. Qed.

Lemma active_iff c :
  active c = true <-> state c = order_placed \/ state c = wait_for_completion.
Proof.
  unfold active. rewrite orb_true_iff, !state_eqb_eq. tauto.
Qed.

Lemma reset_init c : reset c = init (priority_distribution c) (order_penalties c).
Proof. reflexivity. Qed.

Lemma init_inv dist pen : inv (init dist pen).
Proof.
  constructor; simpl; intros; try discriminate; try lra; try reflexivity.
  congruence.
Qed.

Lemma place_order_inv r c : inv c -> inv (fst (place_order r c)).
Proof.
  intros I. unfold place_order.
  destruct (negb (state_eqb (state c) idle)); [exact I|].
  destruct (match select_priority r 0 (priority_distribution c) with
            | Some p => Some p | None => current_priority c end); [|exact I].
  destruct (order_penalties c p) as [[tl itp] otp]. simpl.
  constructor; simpl; intros; try discriminate; try lra; try reflexivity.
  do 4 eexists. repeat split; reflexivity.
Qed.

Lemma step_time_inv c : inv c -> inv (fst (step_time c)).
Proof.
  intros [I1 I2 I3 I4 I5 I6 I7]. unfold step_time.
  destruct (active c); [|constructor; assumption].
  destruct (time_limit c) eqn:E; simpl; constructor; simpl; auto;
    rewrite ?E; auto.
Qed.

Lemma quantity_shipped_inv q c : inv c -> inv (fst (quantity_shipped q c)).
Proof.
  intros I. unfold quantity_shipped.
  destruct (negb (active c)) eqn:A; [exact I|].
  destruct (Qle_bool q 0 || Qlt_bool 1 (order_quantity c + q)) eqn:G; [exact I|].
  destruct (applicable_rate c); [|exact I].
  destruct I as [I1 I2 I3 I4 I5 I6 I7]. qtests.
  apply active_iff in A.
  destruct (Qle_bool 1 (order_quantity c + q)) eqn:F; qtests;
    constructor; simpl; intros; try discriminate; try lra;
    apply I7; destruct A; congruence.
Qed.



Lemma apply_op_mono o c : inv c -> order_quantity c <= order_quantity (apply_op o c).
Proof.
  intros I. destruct o as [r|q| |]; simpl.
  - unfold place_order. destruct (negb (state_eqb (state c) idle)) eqn:E; simpl; [lra|].
    destruct (match select_priority r 0 (priority_distribution c) with
              | Some p => Some p | None => current_priority c end); simpl; [|lra].
    destruct (order_penalties c p) as [[tl itp] otp]. simpl.
    qtests. apply state_eqb_eq in E. rewrite (inv_idle I E). lra.
  - unfold quantity_shipped.
    destruct (negb (active c)); simpl; [lra|].
    destruct (Qle_bool q 0 || Qlt_bool 1 (order_quantity c + q)) eqn:G; simpl; [lra|].
    destruct (applicable_rate c); simpl; [|lra]. qtests. lra.
  - unfold step_time. destruct (active c); simpl; [|lra].
    destruct (time_limit c); simpl; lra.
  - lra.
Qed.



Lemma applicable_rate_inv c :
  inv c -> state c <> idle ->
  exists tl itp otp,
    time_limit c = Some tl /\ in_time_payment c = Some itp /\
    out_of_time_payment c = Some otp /\
    applicable_rate c = Ok (if (time_passed c <=? tl)%Z then itp else otp).
Proof.
  intros I N. destruct (inv_terms I N) as (p & tl & itp & otp & _ & E1 & E2 & E3).
  exists tl, itp, otp. repeat split; trivial.
  unfold applicable_rate. rewrite E1, E2, E3.
  destruct (time_passed c <=? tl)%Z; reflexivity.
Qed.


End ClientFacts.

(** ** Client in binary64 *)

Module Client64Facts.
Import Client64.

Lemma init_has_terms dist pen : has_terms (init dist pen).
Proof. intros N. exfalso. apply N. reflexivity. Qed.

Lemma apply_op_has_terms o c : has_terms c -> has_terms (apply_op o c).
Proof.
  intros I. destruct o as [r|q| |]; simpl.
  - unfold place_order.
    destruct (negb (Client.state_eqb (state c) Client.idle)); [exact I|].
    destruct (match select_priority r zero (priority_distribution c) with
              | Some p => Some p | None => current_priority c end); [|exact I].
    destruct (order_penalties c p) as [[tl itp] otp]. simpl.
    intros _. do 4 eexists. repeat split; reflexivity.
  - unfold quantity_shipped.
    destruct (negb (active c)) eqn:A; [exact I|].
    destruct (leb q zero || ltb one (Binary64.add (order_quantity c) q)); [exact I|].
    destruct (applicable_rate c); [|exact I].
    simpl. intros _. apply I. apply negb_false_iff in A. unfold active in A.
    intros E. rewrite E in A. discriminate.
  - unfold step_time. destruct (active c); [|exact I].
    unfold has_terms in *.
    destruct (time_limit c) eqn:E; simpl; exact I.
  - intros N. exfalso. apply N. reflexivity.
Qed.

Lemma run_has_terms ops : forall c, has_terms c -> has_terms (run ops c).
Proof.
  unfold run. induction ops as [|o ops IH]; simpl; intros c I; [exact I|].
  apply IH, apply_op_has_terms, I.
Qed.

Lemma active64_iff c :
  active c = true <->
  state c = Client.order_placed \/ state c = Client.wait_for_completion.
Proof.
  unfold active. destruct (state c); simpl; split; intros H;
    try discriminate; try tauto; destruct H; discriminate.
Qed.

(** Below or at 1 and at least 1 is equal to 1. *)
Lemma leb_not_ltb x y : ltb x y = false -> leb x y = eqb x y.
Proof.
  unfold ltb, leb, eqb, SFltb, SFleb, SFeqb.
  destruct (SFcompare x y) as [[| |]|]; simpl; congruence.
Qed.

(** C6. In the arithmetic of the code, on a client driven in any way
    from its construction, [quantity_shipped q] raises exactly when the
    state is neither [order_placed] nor [wait_for_completion], or
    [q <= 0], or [order_quantity + q > 1], the sum being the rounded one
    the code computes, and then changes nothing.  When it succeeds it
    returns and adds to [current_payment] the payment
    [q * in_time_payment] if [time_passed <= time_limit] at the call and
    [q * out_of_time_payment] otherwise, adds [q] to [order_quantity],
    and leaves the state [completed] if the new quantity equals 1 and
    [wait_for_completion] if it does not. *)
Theorem quantity_shipped_spec dist pen ops q :
  let c := run ops (init dist pen) in
  let c' := fst (quantity_shipped q c) in
  let r := snd (quantity_shipped q c) in
  let total := Binary64.add (order_quantity c) q in
  (raised r = true <->
     ~ (state c = Client.order_placed \/ state c = Client.wait_for_completion)
     \/ leb q zero = true \/ ltb one total = true) /\
  (raised r = true -> c' = c) /\
  (raised r = false ->
     exists tl itp otp,
       time_limit c = Some tl /\ in_time_payment c = Some itp /\
       out_of_time_payment c = Some otp /\
       let rate := if (time_passed c <=? tl)%Z then itp else otp in
       r = Ok (Binary64.mul q rate) /\
       current_payment c' = Binary64.add (current_payment c) (Binary64.mul q rate) /\
       order_quantity c' = total /\
       state c' = (if eqb one total then Client.completed
                   else Client.wait_for_completion) /\
       time_passed c' = time_passed c /\ time_limit c' = time_limit c /\
       current_priority c' = current_priority c).
Proof.
  intros c c' r total.
  assert (I : has_terms c) by apply run_has_terms, init_has_terms.
  subst c' r total. generalize dependent c. intros c I.
  unfold quantity_shipped.
  destruct (negb (active c)) eqn:A; simpl.
  { apply negb_true_iff in A. repeat split; trivial; try discriminate.
    left. rewrite <- active64_iff. congruence. }
  apply negb_false_iff in A. apply active64_iff in A.
  destruct (leb q zero || ltb one (Binary64.add (order_quantity c) q)) eqn:G; simpl.
  { repeat split; trivial; try discriminate.
    apply orb_true_iff in G. tauto. }
  apply orb_false_iff in G. destruct G as [G1 G2].
  destruct I as (p & tl & itp & otp & _ & E1 & E2 & E3).
  { destruct A as [A|A]; rewrite A; discriminate. }
  unfold applicable_rate. rewrite E1, E2, E3.
  assert (R : (if (time_passed c <=? tl)%Z
               then Ok itp else @Ok spec_float otp)
              = Ok (if (time_passed c <=? tl)%Z then itp else otp))
    by (destruct (time_passed c <=? tl)%Z; reflexivity).
  rewrite R. simpl. split; [|split]; try discriminate.
  - split; [discriminate|]. intros [N|[N|N]]; [tauto|congruence|congruence].
  - intros _. exists tl, itp, otp. repeat split; trivial.
    rewrite (leb_not_ltb _ _ G2). reflexivity.
Qed.

(** The sum the guard tests is the rounded one: a client that has
    received the double [1/3] accepts the double [1 - 1/3], although the
    two add up to more than 1 before rounding, and is completed. *)
Example rounded_sum_accepted :
  order_quantity third_received = Binary64.one_third /\
  Binary64.add Binary64.one_third rest_of_order = one /\
  snd (quantity_shipped rest_of_order third_received)
  = Ok (Binary64.mul rest_of_order (Binary64.of_int 5)) /\
  state (fst (quantity_shipped rest_of_order third_received)) = Client.completed.
Proof. vm_compute. repeat split; reflexivity. Qed.

(** X1. A client with the default priority distribution asked for an
    order, the draw compared with the cumulative sums the loop computes
    in binary64: the doubles 0.4, 0.4 + 0.5 (the double 0.9) and
    0.4 + 0.5 + 0.1 (which rounds to 1.0).  Outside [idle] it raises
    [ValueError] and nothing changes.  Idle, the priority is low for a
    draw at most the first sum, medium for a draw at most the second,
    high for a draw at most the third, and otherwise the priority left
    from before; with a priority, the deadline and the two rates come
    from the client's penalty table, time, quantity and payment are set
    to zero, the state is [order_placed] and the priority is returned;
    with none, the table lookup raises [KeyError] and the client is
    unchanged. *)
Theorem place_order_default r c :
  priority_distribution c = default_priority_distribution ->
  let chosen :=
    if leb r threshold_low then Some Client.low
    else if leb r threshold_medium then Some Client.medium
    else if leb r threshold_high then Some Client.high
    else current_priority c in
  (state c <> Client.idle -> place_order r c = (c, Raise ValueError)) /\
  (state c = Client.idle ->
   forall p, chosen = Some p -> place_order r c = (placed c p, Ok p)) /\
  (state c = Client.idle -> chosen = None -> place_order r c = (c, Raise KeyError)).
Proof.
  intros D. cbn zeta. unfold place_order, placed. rewrite D.
  change (select_priority r zero default_priority_distribution)
    with (if leb r threshold_low then Some Client.low
          else if leb r threshold_medium then Some Client.medium
          else if leb r threshold_high then Some Client.high
          else None).
  split; [|split].
  - intros N. destruct (state c); try reflexivity. contradiction.
  - intros S p E. rewrite S. cbn [negb Client.state_eqb].
    assert (X : match (if leb r threshold_low then Some Client.low
                       else if leb r threshold_medium then Some Client.medium
                       else if leb r threshold_high then Some Client.high
                       else None) with
                | Some p0 => Some p0
                | None => current_priority c
                end = Some p).
    { destruct (leb r threshold_low); [exact E|].
      destruct (leb r threshold_medium); [exact E|].
      destruct (leb r threshold_high); exact E. }
    rewrite X.
    destruct (order_penalties c p) as [[tl itp] otp]. reflexivity.
  - intros S E. rewrite S. cbn [negb Client.state_eqb].
    destruct (leb r threshold_low); [discriminate|].
    destruct (leb r threshold_medium); [discriminate|].
    destruct (leb r threshold_high); [discriminate|].
    rewrite E. reflexivity.
Qed.

Lemma place_order_default_witness :
  let c := init default_priority_distribution default_order_penalties in
  priority_distribution c = default_priority_distribution /\
  place_order threshold_medium c = (placed c Client.medium, Ok Client.medium).
Proof.
  split; [reflexivity|].
  apply (proj1 (proj2 (@place_order_default threshold_medium
                         (init default_priority_distribution default_order_penalties)
                         eq_refl)) eq_refl Client.medium).
  reflexivity.
Defined.

End Client64Facts.

(** ** System: structure of the calls *)

Module SystemFacts.
Import System Line.

Ltac crush_matches :=
  repeat match goal with
  | |- context [match ?x with _ => _ end] => destruct x eqn:?
  | |- context [if ?x then _ else _] => destruct x eqn:?
  end.

(** Unfolds the attribute assignments down to record constructors. *)
Ltac setters :=
  unfold Machine.set_state, Machine.set_current_batch_size,
    Machine.set_time_remaining, Machine.set_stored_output,
    Machine.set_raw_material_consumed, Machine.set_maintenance_active,
    Machine.set_total_operator_time, Machine.set_source_machine,
    Machine.reset, Machine.assign,
    Truck.set_client, Truck.set_machine, Truck.set_time_remaining,
    Truck.reset, Truck.assign,
    set_machine, set_truck, set_client, set_current_priority,
    set_current_enacted_strategy, get_machine, get_truck, get_client in *.

Lemma machine_state_eqb_eq a b : Machine.state_eqb a b = true <-> a = b.
Proof. destruct a, b; simpl; split; congruence. Qed.

Lemma truck_state_eqb_eq a b : Truck.state_eqb a b = true <-> a = b.
Proof. destruct a, b; simpl; split; congruence. Qed.

Lemma prims_trans s1 s2 s3 : prims s1 s2 -> prims s2 s3 -> prims s1 s3.
Proof.
  intros H12 H23. induction H23 as [|a b c Hab IH Hbc]; [assumption|].
  apply prims_step with b; [apply IH, H12|exact Hbc].
Qed.

Lemma prims_one s1 s2 : prim s1 s2 -> prims s1 s2.
Proof. intro H. eapply prims_step; [apply prims_refl|exact H]. Qed.

Lemma fold_prims {A} (f : t -> A -> t) (l : list A) :
  (forall s a, prim s (f s a)) -> forall s, prims s (fold_left f l s).
Proof.
  intros Hf. induction l as [|a l IH]; simpl; intros s; [apply prims_refl|].
  eapply prims_trans; [apply prims_one, Hf|apply IH].
Qed.

(** Every per-entity method is its one request followed by [get_state]. *)
Lemma method_request c s :
  method_of c s = (fst (request_of c s), get_state (fst (request_of c s))).
Proof. destruct c; reflexivity. Qed.

(** What [action] can dispatch to. *)
Lemma action_cases a g s :
  action a g s = (s, Raise ValueError)
  \/ (exists c, action a g s = method_of c s)
  \/ (a = "step"%string /\ action a g s = step g s)
  \/ (a = "reset"%string /\ action a g s = reset g s).
Proof.
  unfold action, action_methods. cbn [lookup].
  repeat match goal with
  | |- context [String.eqb a ?k] =>
      destruct (String.eqb_spec a k) as [->|?]
  end;
  try (left; reflexivity);
  try (right; left;
       first [ exists C_m1_processing_third; reflexivity
             | exists C_m1_processing_half; reflexivity
             | exists C_m1_processing_full; reflexivity
             | exists C_m1_maintenance; reflexivity
             | exists C_m2_processing_third; reflexivity
             | exists C_m2_processing_half; reflexivity
             | exists C_m2_processing_full; reflexivity
             | exists C_m2_maintenance; reflexivity
             | exists C_small_truck_shipment; reflexivity
             | exists C_big_truck_shipment; reflexivity ]);
  try (right; right; left; split; reflexivity);
  try (right; right; right; split; reflexivity).
Qed.

Lemma request_prim c s : prim s (fst (request_of c s)).
Proof.
  destruct c; cbn [request_of];
    first [apply prim_request_processing | apply prim_request_maintenance
          | apply prim_request_shipment].
Qed.

Lemma step_prims g s : prims s (fst (step g s)).
Proof.
  unfold step. simpl.
  eapply prims_trans; [|apply prims_one, prim_client_step_time].
  eapply prims_trans; [|apply fold_prims; intros; apply prim_truck_step].
  apply fold_prims. intros. apply prim_machine_step.
Qed.

Lemma reset_prims g s : prims s (fst (reset g s)).
Proof.
  unfold reset.
  set (s1 := set_current_enacted_strategy 0 s).
  set (s2 := set_client TheClient (Client.reset (client s1)) s1).
  set (s3 := fold_left _ (machines s2) s2).
  set (s4 := fold_left _ (trucks s3) s3).
  assert (P4 : prims s s4).
  { eapply prims_trans; [|apply fold_prims; intros; apply prim_reset_truck].
    eapply prims_trans; [|apply fold_prims; intros; apply prim_reset_machine].
    eapply prims_trans; apply prims_one; [apply prim_reset_counter|apply prim_reset_client]. }
  pose proof (prim_place_order (rand_val g) s4) as P5.
  destruct (Client.place_order (rand_val g) (client s4)) as [c [p|e]]; simpl in *.
  - eapply prims_trans; [exact P4|].
    eapply prims_trans; [apply prims_one, P5|].
    eapply prims_trans; [apply prims_one, (prim_set_priority (Some p))|].
    apply prims_one. unfold m1_processing_full, attempt. cbn [fst].
    apply prim_request_processing.
  - eapply prims_trans; [exact P4|apply prims_one, P5].
Qed.

Lemma action_prims a g s : prims s (fst (action a g s)).
Proof.
  destruct (action_cases a g s) as [E|[[c E]|[[_ E]|[_ E]]]]; rewrite E.
  - apply prims_refl.
  - rewrite method_request. apply prims_one, request_prim.
  - apply step_prims.
  - apply reset_prims.
Qed.

(** [enact_strategy] either stops at the terminal check, leaving the
    system as it is, or runs [action] on the command it chose. *)
Lemma enact_strategy_state g s :
  fst (enact_strategy g s) =
  if terminal s then s else fst (action (choose_command (decide s)) g s).
Proof.
  unfold enact_strategy, terminal.
  destruct (_ && _).
  - destruct (Client.time_limit (client s)); reflexivity.
  - destruct (action _ g s) as [s' [o|e]]; reflexivity.
Qed.

Lemma apply_call_prims c s : prims s (apply_call c s).
Proof.
  destruct c as [a g|g]; simpl.
  - apply action_prims.
  - rewrite enact_strategy_state. destruct (terminal s);
      [apply prims_refl|apply action_prims].
Qed.

Lemma reachable_run calls : forall s, reachable s -> reachable (run calls s).
Proof.
  unfold run. induction calls as [|c calls IH]; simpl; intros s R; trivial.
  apply IH. constructor. exact R.
Qed.

(** Invariance: a property of every freshly built system that each
    elementary update preserves holds of every reachable system. *)
Lemma reachable_ind_prim (P : t -> Prop) :
  (forall g s, init g = Ok s -> P s) ->
  (forall s s', prim s s' -> P s -> P s') ->
  forall s, reachable s -> P s.
Proof.
  intros Hinit Hprim s R. induction R as [g s E|c s R IH].
  - eapply Hinit; eauto.
  - pose proof (apply_call_prims c s) as Ps.
    induction Ps; eauto.
Qed.

(** *** Invariants of reachable systems *)

Lemma init_cases g s :
  init g = Ok s ->
  exists p,
    Client.select_priority (rand_val g) 0 Client.default_priority_distribution = Some p /\
    s = fst (m1_processing_full
               (mk (fst (Client.place_order (rand_val g)
                           (Client.init Client.default_priority_distribution
                                        Client.default_order_penalties)))
                   (Machine.init "M1")
                   (Machine.set_source_machine M1 (Machine.init "M2"))
                   (Truck.set_client TheClient
                      (Truck.set_machine M2 (Truck.init (1 # 3) 2 "Small Truck")))
                   (Truck.set_client TheClient
                      (Truck.set_machine M2 (Truck.init 1 3 "Big Truck")))
                   0 0 (Some p) [M1; M2] [SmallTruck; BigTruck] 0)).
Proof.
  unfold init, Client.place_order.
  cbn -[Client.select_priority m1_processing_full].
  destruct (Client.select_priority (rand_val g) 0 Client.default_priority_distribution)
    as [p|]; [|discriminate].
  intros E. exists p. split; trivial.
  destruct p; simpl in *; injection E as <-; reflexivity.
Qed.

Lemma init_wired g s : init g = Ok s -> wired s.
Proof.
  intros E. destruct (init_cases _ E) as (p & _ & ->).
  constructor; reflexivity.
Qed.

Lemma prim_wired s s' : prim s s' -> wired s -> wired s'.
Proof.
  intros P [W1 W2 W3 W4 W5 W6 W7 W8].
  destruct P as [r b s|r s|k s|g r s|k s|s|s|s|r s|k s|x s|p s].
  - unfold machine_request_processing, Machine.request_processing,
      Machine.start_processing, Machine.retrieve_quantity.
    destruct r; simpl; rewrite ?W3, ?W4; setters; crush_matches; simpl;
      constructor; simpl; congruence.
  - unfold machine_request_maintenance, Machine.request_maintenance.
    destruct r; setters; crush_matches; simpl; constructor; simpl; congruence.
  - unfold truck_request_shipment, Truck.request_shipment, Machine.retrieve_quantity.
    destruct k; simpl; rewrite ?W5, ?W6, ?W7, ?W8; setters; crush_matches; simpl;
      constructor; simpl; congruence.
  - unfold machine_step, Machine.step.
    destruct r; setters; simpl; crush_matches; simpl; constructor; simpl; congruence.
  - unfold truck_step, Truck.step, Truck.finish_delivery.
    destruct k; simpl; rewrite ?W6, ?W8; setters; crush_matches; simpl;
      constructor; simpl; congruence.
  - constructor; simpl; congruence.
  - constructor; simpl; congruence.
  - constructor; simpl; congruence.
  - destruct r; constructor; simpl; congruence.
  - destruct k; constructor; simpl; congruence.
  - constructor; simpl; congruence.
  - constructor; simpl; congruence.
Qed.

Lemma reachable_wired s : reachable s -> wired s.
Proof.
  apply reachable_ind_prim with (P := wired).
  - apply init_wired.
  - apply prim_wired.
Qed.

Lemma prim_client s s' :
  prim s s' ->
  client s' = client s
  \/ (exists q, client s' = fst (Client.quantity_shipped q (client s)))
  \/ client s' = fst (Client.step_time (client s))
  \/ client s' = Client.reset (client s)
  \/ (exists x, client s' = fst (Client.place_order x (client s))).
Proof.
  intros P.
  destruct P as [r b s|r s|k s|g r s|k s|s|s|s|r s|k s|x s|p s].
  - left. unfold machine_request_processing, Machine.request_processing,
      Machine.start_processing, Machine.retrieve_quantity.
    destruct r; simpl; crush_matches;
      repeat match goal with m : mref |- _ => destruct m end; reflexivity.
  - left. unfold machine_request_maintenance, Machine.request_maintenance.
    destruct r; simpl; crush_matches;
      repeat match goal with m : mref |- _ => destruct m end; reflexivity.
  - left. unfold truck_request_shipment, Truck.request_shipment, Machine.retrieve_quantity.
    destruct k; simpl; crush_matches;
      repeat match goal with m : mref |- _ => destruct m end; reflexivity.
  - left. unfold machine_step, Machine.step.
    destruct r; simpl; crush_matches;
      repeat match goal with m : mref |- _ => destruct m end; reflexivity.
  - unfold truck_step, Truck.step, Truck.finish_delivery.
    destruct k; simpl.
    + destruct (Truck.state (small_truck s)); simpl; auto.
      destruct (_ <=? 0)%Z; simpl; auto.
      destruct (Truck.client (small_truck s)); simpl; auto.
      right; left. exists (Truck.current_load (small_truck s)).
      destruct (Client.quantity_shipped _ _) as [c' [v|e]]; reflexivity.
    + destruct (Truck.state (big_truck s)); simpl; auto.
      destruct (_ <=? 0)%Z; simpl; auto.
      destruct (Truck.client (big_truck s)); simpl; auto.
      right; left. exists (Truck.current_load (big_truck s)).
      destruct (Client.quantity_shipped _ _) as [c' [v|e]]; reflexivity.
  - right; right; left. reflexivity.
  - auto.
  - auto.
  - left. destruct r; reflexivity.
  - left. destruct k; reflexivity.
  - right; right; right; right. eexists. reflexivity.
  - auto.
Qed.

Lemma prim_client_inv s s' :
  prim s s' -> Client.inv (client s) -> Client.inv (client s').
Proof.
  intros P I.
  destruct (prim_client P) as [E|[[q E]|[E|[E|[x E]]]]]; rewrite E.
  - exact I.
  - apply ClientFacts.quantity_shipped_inv, I.
  - apply ClientFacts.step_time_inv, I.
  - rewrite ClientFacts.reset_init. apply ClientFacts.init_inv.
  - apply ClientFacts.place_order_inv, I.
Qed.

Lemma init_client_inv g s : init g = Ok s -> Client.inv (client s).
Proof.
  intros E. destruct (init_cases _ E) as (p & _ & ->). simpl.
  apply ClientFacts.place_order_inv, ClientFacts.init_inv.
Qed.

Lemma reachable_client_inv s : reachable s -> Client.inv (client s).
Proof.
  apply reachable_ind_prim with (P := fun s => Client.inv (client s)).
  - apply init_client_inv.
  - apply prim_client_inv.
Qed.

(** In a system built by [__init__] the client is never idle again
    unless a reset fails to place its order; what matters below is that
    an active or completed client has its deadline. *)
Lemma reachable_deadline s :
  reachable s -> Client.state (client s) <> Client.idle ->
  exists tl, Client.time_limit (client s) = Some tl.
Proof.
  intros R N.
  destruct (Client.inv_terms (reachable_client_inv R) N) as (p & tl & _ & _ & _ & E & _).
  eauto.
Qed.

(** On reachable systems [get_state] returns an observation. *)
Lemma get_state_ok s :
  Client.inv (client s) -> exists o, get_state s = Ok o.
Proof.
  intros I. unfold get_state, penalty_clock. simpl.
  destruct (Client.state (client s)) eqn:S; try (eexists; reflexivity).
  - destruct (Client.inv_terms I) as (p & tl & _ & _ & _ & E & _); [congruence|].
    rewrite E. destruct (tl <? _)%Z; eexists; reflexivity.
  - destruct (Client.inv_terms I) as (p & tl & _ & _ & _ & E & _); [congruence|].
    rewrite E. destruct (tl <? _)%Z; eexists; reflexivity.
Qed.

Ltac split_min :=
  repeat match goal with
  | |- context [py_min ?a ?b] =>
      let L := fresh "L" in let E := fresh "E" in
      destruct (py_min_spec a b) as [[L E]|[L E]]; rewrite !E in *; clear E
  | H : context [py_min ?a ?b] |- _ =>
      let L := fresh "L" in let E := fresh "E" in
      destruct (py_min_spec a b) as [[L E]|[L E]]; rewrite !E in *; clear E
  end.

Lemma quantity_of_pos b : 0 < Machine.quantity_of b.
Proof. destruct b; reflexivity. Qed.

Lemma init_sound g s : init g = Ok s -> sound s.
Proof.
  intros E. destruct (init_cases _ E) as (p & _ & ->).
  constructor; simpl; lra.
Qed.

Lemma prim_sound s s' : prim s s' -> wired s -> sound s -> sound s'.
Proof.
  intros P [W1 W2 W3 W4 W5 W6 W7 W8] [S1 S2 S3 S4].
  destruct P as [r b s|r s|k s|g r s|k s|s|s|s|r s|k s|x s|p s].
  - unfold machine_request_processing, Machine.request_processing,
      Machine.start_processing, Machine.retrieve_quantity.
    destruct r; simpl; rewrite ?W3, ?W4; setters; crush_matches; simpl;
      constructor; simpl; trivial; split_min; lra.
  - unfold machine_request_maintenance, Machine.request_maintenance.
    destruct r; setters; crush_matches; simpl; constructor; simpl; trivial.
  - unfold truck_request_shipment, Truck.request_shipment, Machine.retrieve_quantity.
    destruct k; simpl; rewrite ?W5, ?W6, ?W7, ?W8; setters; crush_matches; simpl;
      constructor; simpl; trivial; split_min; lra.
  - unfold machine_step, Machine.step.
    destruct r; setters; simpl; crush_matches; simpl; constructor; simpl; trivial;
      match goal with |- context [Machine.quantity_of ?b] =>
        pose proof (quantity_of_pos b); lra end.
  - unfold truck_step, Truck.step, Truck.finish_delivery.
    destruct k; simpl; rewrite ?W6, ?W8; setters; crush_matches; simpl;
      constructor; simpl; trivial.
  - constructor; simpl; trivial.
  - constructor; simpl; trivial.
  - constructor; simpl; trivial.
  - destruct r; constructor; simpl; trivial; lra.
  - destruct k; constructor; simpl; trivial.
  - constructor; simpl; trivial.
  - constructor; simpl; trivial.
Qed.

Lemma reachable_sound s : reachable s -> sound s.
Proof.
  intros R. apply (reachable_ind_prim (fun s => wired s /\ sound s)); trivial.
  - intros g s0 E. split; [eapply init_wired|eapply init_sound]; eauto.
  - intros s1 s2 P [W S]. split; [eapply prim_wired|eapply prim_sound]; eauto.
Qed.

Lemma fresh_init : init first_entry = Ok fresh.
Proof. reflexivity. Qed.

Lemma fresh_reachable : reachable fresh.
Proof. apply reachable_init with first_entry. reflexivity. Qed.

(** *** One tick *)

(** C4. On every reachable system [step] advances M1, then M2, then the
    small truck, then the big truck, then the client, once each; the
    result of each entity's step, error or not, is dropped; what is
    returned is [get_state] of the system after all five, and it is an
    observation. *)
Theorem step_order g s :
  reachable s ->
  let s1 := fst (machine_step g M1 s) in
  let s2 := fst (machine_step g M2 s1) in
  let s3 := fst (truck_step SmallTruck s2) in
  let s4 := fst (truck_step BigTruck s3) in
  let s5 := fst (client_step_time s4) in
  step g s = (s5, get_state s5) /\ exists o, get_state s5 = Ok o.
Proof.
  intros R s1 s2 s3 s4 s5.
  pose proof (reachable_wired R) as W.
  assert (E : step g s = (s5, get_state s5)).
  { unfold step. rewrite (wired_machines W). cbn [fold_left].
    change (attempt (machine_step g M2) (attempt (machine_step g M1) s)) with s2.
    assert (T : trucks s2 = [SmallTruck; BigTruck]).
    { assert (W2 : wired s2).
      { apply prim_wired with s1; [apply prim_machine_step|].
        apply prim_wired with s; [apply prim_machine_step|exact W]. }
      apply (wired_trucks W2). }
    rewrite T. reflexivity. }
  split; [exact E|].
  apply get_state_ok.
  assert (R5 : reachable (apply_call (Action "step" g) s)) by (constructor; exact R).
  change (apply_call (Action "step" g) s) with (fst (step g s)) in R5.
  rewrite E in R5. apply reachable_client_inv, R5.
Qed.

Lemma step_order_witness :
  reachable fresh /\
  let s1 := fst (machine_step first_entry M1 fresh) in
  let s2 := fst (machine_step first_entry M2 s1) in
  let s3 := fst (truck_step SmallTruck s2) in
  let s4 := fst (truck_step BigTruck s3) in
  let s5 := fst (client_step_time s4) in
  step first_entry fresh = (s5, get_state s5) /\ exists o, get_state s5 = Ok o.
Proof.
  split; [exact fresh_reachable|].
  apply (step_order first_entry fresh_reachable).
Defined.

(** *** Per-entity commands *)

Lemma machine_eta m :
  Machine.set_stored_output m (Machine.stored_output m) = m.
Proof. destruct m; reflexivity. Qed.

Lemma set_machine_eta r s : set_machine r (get_machine r s) s = s.
Proof. destruct r, s; reflexivity. Qed.

(** C8. On every reachable system each of the ten per-entity commands
    is its single request call on the entity it names followed by
    [get_state]: the observation of the resulting system is returned,
    whatever the request answered.  In particular, when M2 stores nothing
    the command [small_truck_shipment] returns the observation the system
    had before and changes nothing: every object and field is as it was,
    M2's stored output being the same number. *)
Theorem entity_commands_best_effort s :
  reachable s ->
  (forall c,
     method_of c s = (fst (request_of c s), get_state (fst (request_of c s)))
     /\ exists o, snd (method_of c s) = Ok o) /\
  (Machine.stored_output (m2 s) == 0 ->
   let s' := fst (small_truck_shipment s) in
   snd (small_truck_shipment s) = get_state s /\
   s' = set_machine M2 (m2 s') s /\ same_machine (m2 s) (m2 s')).
Proof.
  intros R. split.
  - intros c. split; [apply method_request|].
    rewrite method_request. simpl. apply get_state_ok.
    apply (reachable_ind_prim (fun s => Client.inv (client s)));
      [apply init_client_inv|apply prim_client_inv|].
    apply (reachable_call (Action match c with
      | C_m1_processing_third => "m1_processing_third"
      | C_m1_processing_half => "m1_processing_half"
      | C_m1_processing_full => "m1_processing_full"
      | C_m1_maintenance => "m1_maintenance"
      | C_m2_processing_third => "m2_processing_third"
      | C_m2_processing_half => "m2_processing_half"
      | C_m2_processing_full => "m2_processing_full"
      | C_m2_maintenance => "m2_maintenance"
      | C_small_truck_shipment => "small_truck_shipment"
      | C_big_truck_shipment => "big_truck_shipment"
      end%string first_entry)) in R.
    destruct c; exact R.
  - intros Z s'.
    pose proof (reachable_wired R) as W. pose proof (reachable_sound R) as S.
    assert (E : exists x, x == Machine.stored_output (m2 s) /\
                          s' = set_machine M2 (Machine.set_stored_output (m2 s) x) s).
    { subst s'. unfold small_truck_shipment, attempt, truck_request_shipment,
        Truck.request_shipment, Machine.retrieve_quantity.
      cbn [get_truck get_machine fst].
      rewrite (wired_ts_source W), (wired_ts_client W).
      destruct (negb _).
      - exists (Machine.stored_output (m2 s)). split; [reflexivity|].
        cbn [fst]. rewrite machine_eta. symmetry. apply (set_machine_eta M2).
      - pose proof (sound_ts S) as C.
        assert (Q0 : py_min (Truck.capacity (small_truck s))
                            (Machine.stored_output (m2 s)) == 0)
          by (split_min; lra).
        cbn [get_machine].
        assert (T : Qle_bool (py_min (Truck.capacity (small_truck s))
                                     (Machine.stored_output (m2 s))) 0 = true)
          by (apply Qle_bool_iff; lra).
        rewrite T. cbn [fst]. eexists. split; [|reflexivity]. lra. }
    destruct E as (x & Ex & Es).
    assert (M : m2 s' = Machine.set_stored_output (m2 s) x) by (rewrite Es; reflexivity).
    split; [|split].
    + change (snd (small_truck_shipment s)) with (get_state s').
      rewrite Es. unfold get_state. simpl.
      rewrite (QuantizeFacts.quantize_compat Ex). reflexivity.
    + rewrite M. exact Es.
    + rewrite M. split; simpl; [lra|reflexivity].
Qed.

Lemma entity_commands_best_effort_witness :
  reachable fresh /\
  (forall c,
     method_of c fresh
     = (fst (request_of c fresh), get_state (fst (request_of c fresh)))
     /\ exists o, snd (method_of c fresh) = Ok o) /\
  Machine.stored_output (m2 fresh) == 0 /\
  let s' := fst (small_truck_shipment fresh) in
  snd (small_truck_shipment fresh) = get_state fresh /\
  s' = set_machine M2 (m2 s') fresh /\ same_machine (m2 fresh) (m2 s').
Proof.
  split; [exact fresh_reachable|].
  destruct (entity_commands_best_effort fresh_reachable) as [G P].
  split; [exact G|]. split; [reflexivity|]. apply P. reflexivity.
Defined.

(** *** The built-in strategy *)

Lemma choose_command_cases d :
  In (choose_command d)
     ["m2_maintenance"; "m2_processing_third"; "m1_maintenance";
      "m1_processing_full"; "small_truck_shipment"; "step"]%string.
Proof.
  unfold choose_command.
  destruct (m2_maintenance_active d), (m2_running d), (m1_running d),
    (m1_maintenance_active d), (ts_running d), (tb_running d),
    (Qlt_bool 0 (m1_stored_raw d)), (Qlt_bool (client_quantity d) 1),
    (Qlt_bool 0 (m2_stored_raw d)); simpl; tauto.
Qed.

(** The chain of the code picks the first rule of the specification's
    list whose guard holds. *)
Lemma choose_command_first_match s :
  choose_command (decide s) = first_match spec_rules s.
Proof.
  unfold choose_command, decide, spec_rules, first_match, maintained,
    client_unfulfilled, Machine.is_idle, Truck.is_available. cbn -[Qlt_bool].
  destruct (Machine.state (m1 s)), (Machine.state (m2 s)),
    (Machine.maintenance_active (m1 s)), (Machine.maintenance_active (m2 s)),
    (Truck.state (small_truck s)), (Truck.state (big_truck s)),
    (Qlt_bool 0 (Machine.stored_output (m1 s))),
    (Qlt_bool (Client.order_quantity (client s)) 1),
    (Qlt_bool 0 (Machine.stored_output (m2 s))); reflexivity.
Qed.

Lemma big_request_processing r b s :
  big_truck (fst (machine_request_processing r b s)) = big_truck s.
Proof.
  unfold machine_request_processing, Machine.request_processing,
    Machine.start_processing, Machine.retrieve_quantity.
  destruct r; simpl; crush_matches;
    repeat match goal with m : mref |- _ => destruct m end; reflexivity.
Qed.

Lemma big_request_maintenance r s :
  big_truck (fst (machine_request_maintenance r s)) = big_truck s.
Proof. destruct r; reflexivity. Qed.

Lemma big_small_shipment s :
  big_truck (fst (truck_request_shipment SmallTruck s)) = big_truck s.
Proof.
  unfold truck_request_shipment, Truck.request_shipment, Machine.retrieve_quantity.
  simpl; crush_matches;
    repeat match goal with m : mref |- _ => destruct m end; reflexivity.
Qed.

Lemma big_machine_step g r s : big_truck (fst (machine_step g r s)) = big_truck s.
Proof. destruct r; reflexivity. Qed.

Lemma big_truck_step k s :
  Truck.state (big_truck s) = Truck.available ->
  big_truck (fst (truck_step k s)) = big_truck s.
Proof.
  intros A. unfold truck_step, Truck.step, Truck.finish_delivery.
  destruct k; simpl; rewrite ?A; crush_matches; reflexivity.
Qed.

Lemma big_step g s :
  Truck.state (big_truck s) = Truck.available ->
  big_truck (fst (step g s)) = big_truck s.
Proof.
  intros A. unfold step. cbn [fst]. unfold attempt at 1.
  change (big_truck (fst (client_step_time ?x))) with (big_truck x).
  set (s1 := fold_left _ (machines s) s).
  assert (E1 : big_truck s1 = big_truck s).
  { subst s1. generalize (machines s). intros l. revert s A.
    induction l as [|r l IH]; simpl; intros s A; trivial.
    rewrite IH; unfold attempt; rewrite big_machine_step; trivial. }
  rewrite <- E1. rewrite <- E1 in A. clearbody s1. clear E1.
  generalize (trucks s1). intros l. revert s1 A.
  induction l as [|k l IH]; simpl; intros s1 A; trivial.
  rewrite IH; unfold attempt; rewrite big_truck_step; trivial.
Qed.

Lemma big_enact_strategy g s :
  Truck.state (big_truck s) = Truck.available ->
  big_truck (fst (enact_strategy g s)) = big_truck s.
Proof.
  intros A. rewrite enact_strategy_state. destruct (terminal s); trivial.
  pose proof (choose_command_cases (decide s)) as C. simpl in C.
  destruct C as [<-|[<-|[<-|[<-|[<-|[<-|[]]]]]]].
  - apply (big_request_maintenance M2).
  - apply (big_request_processing M2).
  - apply (big_request_maintenance M1).
  - apply (big_request_processing M1).
  - apply big_small_shipment.
  - apply big_step, A.
Qed.

(** C9. In every system state the big-truck rule is shadowed: its guard
    (small truck not running, big truck not running, M2 stored output
    positive) implies the guard of the small-truck rule tested just
    before it, so the chain never picks [big_truck_shipment], no call of
    [enact_strategy] reports it as the command executed, and a big truck
    that is available stays untouched through any number of calls of
    [enact_strategy]; the big truck of a freshly built system is
    available. *)
Theorem big_truck_never_chosen s g :
  (forall d,
     negb (ts_running d) && negb (tb_running d) && Qlt_bool 0 (m2_stored_raw d) = true ->
     negb (ts_running d) && Qlt_bool 0 (m2_stored_raw d) = true) /\
  choose_command (decide s) <> "big_truck_shipment"%string /\
  (forall c, snd (enact_strategy g s) = Ok (Components c) ->
             command_executed c <> "big_truck_shipment"%string) /\
  (forall gs, Truck.state (big_truck s) = Truck.available ->
              big_truck (run (map EnactStrategy gs) s) = big_truck s) /\
  (forall s0, init g = Ok s0 -> Truck.state (big_truck s0) = Truck.available).
Proof.
  assert (N : forall d, choose_command d <> "big_truck_shipment"%string).
  { intros d. pose proof (choose_command_cases d) as C. simpl in C.
    destruct C as [<-|[<-|[<-|[<-|[<-|[<-|[]]]]]]]; discriminate. }
  split; [|split; [|split; [|split]]].
  - intros d H. destruct (ts_running d), (tb_running d); simpl in *;
      trivial; discriminate.
  - apply N.
  - intros c. unfold enact_strategy.
    destruct (_ && _).
    + destruct (Client.time_limit (client s)); discriminate.
    + destruct (action _ g s) as [s' [o|e]]; [|discriminate].
      simpl. intros E. injection E as <-. simpl. apply N.
  - intros gs. revert s. unfold run.
    induction gs as [|g1 gs IH]; simpl; intros s A; trivial.
    rewrite IH; rewrite big_enact_strategy; trivial.
  - intros s0 E. destruct (init_cases _ E) as (p & _ & ->). reflexivity.
Qed.

Lemma action_returns_state g s cmd :
  In cmd ["m2_maintenance"; "m2_processing_third"; "m1_maintenance";
          "m1_processing_full"; "small_truck_shipment"; "step"]%string ->
  snd (action cmd g s) = get_state (fst (action cmd g s)).
Proof.
  simpl. intros [<-|[<-|[<-|[<-|[<-|[<-|[]]]]]]]; reflexivity.
Qed.

(** C3. On every reachable system: if the client is completed,
    [enact_strategy] returns the string [Completed <True|False> <priority>]
    (whether [time_passed] is within the deadline, then the priority of
    the order) and leaves the system as it is; otherwise the command it
    runs through [action], and reports as executed, is the one of the
    first rule, in the order m2_maintenance, m2_processing_third,
    m1_maintenance, m1_processing_full, small_truck_shipment,
    big_truck_shipment, whose condition holds, and [step] when none
    does. *)
Theorem enact_strategy_spec g s :
  reachable s ->
  (Client.state (client s) = Client.completed ->
   exists p tl,
     Client.current_priority (client s) = Some p /\
     Client.time_limit (client s) = Some tl /\
     enact_strategy g s =
     (s, Ok (Terminal ("Completed "
                       ++ str_bool (Client.time_passed (client s) <=? tl)%Z
                       ++ " " ++ Client.str_priority p)))) /\
  (Client.state (client s) <> Client.completed ->
   let command := first_match spec_rules s in
   let s' := fst (action command g s) in
   exists o,
     action command g s = (s', Ok o) /\
     enact_strategy g s =
     (s', Ok (Components {| base := o;
                            command_executed := command;
                            current_revenue := Client.current_payment (client s');
                            variables := decide s |}))).
Proof.
  intros R. pose proof (reachable_client_inv R) as I. split.
  - intros C.
    destruct (Client.inv_terms I) as (p & tl & itp & otp & Ep & Et & _);
      [congruence|].
    exists p, tl. repeat split; trivial.
    unfold enact_strategy. rewrite C, Et, Ep. simpl.
    assert (Q1 : Qle_bool 1 (Client.order_quantity (client s)) = true).
    { apply Qle_bool_iff. rewrite (Client.inv_completed I C). lra. }
    rewrite Q1. reflexivity.
  - intros C command s'.
    assert (Er : snd (action command g s) = get_state s').
    { apply action_returns_state. subst command.
      rewrite <- choose_command_first_match. apply choose_command_cases. }
    destruct (@get_state_ok s') as [o Eo].
    { apply reachable_client_inv.
      apply (reachable_call (Action command g)) in R. exact R. }
    exists o.
    assert (Ea : action command g s = (s', Ok o)).
    { rewrite <- Eo, <- Er. subst s'. destruct (action command g s); reflexivity. }
    split; [exact Ea|].
    unfold enact_strategy.
    assert (T : Client.state_eqb (Client.state (client s)) Client.completed = false).
    { destruct (Client.state (client s)); trivial. congruence. }
    rewrite T. cbn [andb]. rewrite choose_command_first_match.
    fold command. rewrite Ea. reflexivity.
Qed.

Lemma enact_strategy_spec_witness :
  reachable fresh /\
  (Client.state (client fresh) = Client.completed ->
   exists p tl,
     Client.current_priority (client fresh) = Some p /\
     Client.time_limit (client fresh) = Some tl /\
     enact_strategy first_entry fresh =
     (fresh, Ok (Terminal ("Completed "
                           ++ str_bool (Client.time_passed (client fresh) <=? tl)%Z
                           ++ " " ++ Client.str_priority p)))) /\
  (Client.state (client fresh) <> Client.completed ->
   let command := first_match spec_rules fresh in
   let s' := fst (action command first_entry fresh) in
   exists o,
     action command first_entry fresh = (s', Ok o) /\
     enact_strategy first_entry fresh =
     (s', Ok (Components {| base := o;
                            command_executed := command;
                            current_revenue := Client.current_payment (client s');
                            variables := decide fresh |}))).
Proof.
  split; [exact fresh_reachable|].
  apply (enact_strategy_spec first_entry fresh_reachable).
Defined.

(** *** A truck whose delivery is refused *)

Lemma rejects_iff c q :
  Client.inv c ->
  (rejects c q = true <->
   Client.active c = false \/ q <= 0 \/ 1 < Client.order_quantity c + q).
Proof.
  intros I. unfold rejects, Client.quantity_shipped.
  destruct (Client.active c) eqn:A; simpl.
  - destruct (Qle_bool q 0 || Qlt_bool 1 (Client.order_quantity c + q)) eqn:G; simpl.
    + split; trivial. intros _. right.
      apply orb_true_iff in G. destruct G; qtests; auto.
    + destruct (@ClientFacts.applicable_rate_inv c I) as (tl & itp & otp & _ & _ & _ & E).
      { apply ClientFacts.active_iff in A. destruct A; congruence. }
      rewrite E. simpl. qtests. split; [discriminate|].
      intros [N|[N|N]]; [discriminate|lra|lra].
  - split; auto.
Qed.

Lemma rejects_unchanged c q :
  rejects c q = true -> fst (Client.quantity_shipped q c) = c.
Proof.
  unfold rejects, Client.quantity_shipped.
  destruct (negb (Client.active c)); trivial.
  destruct (_ || _); trivial.
  destruct (Client.applicable_rate c); simpl; trivial. discriminate.
Qed.

Lemma rejects_after_shipment c q q' :
  Client.inv c -> rejects c q = true ->
  rejects (fst (Client.quantity_shipped q' c)) q = true.
Proof.
  intros I Rj.
  pose proof (ClientFacts.quantity_shipped_inv q' I) as I'.
  apply (rejects_iff q I'). apply (rejects_iff q I) in Rj.
  destruct Rj as [A|[N|N]]; auto.
  - left. unfold Client.quantity_shipped. rewrite A. exact A.
  - right; right.
    pose proof (ClientFacts.apply_op_mono (Client.QuantityShipped q') I) as M.
    simpl in M. lra.
Qed.

Lemma rejects_after_tick c q :
  Client.inv c -> rejects c q = true -> rejects (fst (Client.step_time c)) q = true.
Proof.
  intros I Rj.
  pose proof (ClientFacts.step_time_inv I) as I'.
  apply (rejects_iff q I'). apply (rejects_iff q I) in Rj.
  unfold Client.step_time in *. destruct (Client.active c) eqn:A; simpl.
  - destruct (Client.time_limit c); simpl; unfold Client.active; simpl;
      fold (Client.active c); rewrite A; trivial.
  - auto.
Qed.

(** The step of a stuck truck raises after the countdown was lowered, and
    nothing else moves. *)
Lemma truck_step_stuck k s :
  wired s -> stuck k s ->
  exists e,
    truck_step k s =
    (set_truck k (Truck.set_time_remaining (get_truck k s)
                    (Truck.time_remaining (get_truck k s) - 1)) s, Raise e).
Proof.
  intros W [St Ti Rf]. unfold truck_step, Truck.step. rewrite St.
  cbn [Truck.time_remaining Truck.set_time_remaining Truck.assign
       Truck.client Truck.current_load].
  assert (T : (Truck.time_remaining (get_truck k s) - 1 <=? 0)%Z = true)
    by (apply Z.leb_le; lia).
  rewrite T.
  assert (C : Truck.client (get_truck k s) = Some TheClient)
    by (destruct k; [apply (wired_ts_client W)|apply (wired_tb_client W)]).
  rewrite C.
  assert (G : forall x, get_client TheClient (set_truck k x s) = client s)
    by (intros x; destruct k; reflexivity).
  rewrite G. pose proof (rejects_unchanged _ _ Rf) as U. unfold rejects in Rf.
  destruct (Client.quantity_shipped _ (client s)) as [cl [v|e]]; [discriminate|].
  simpl in U. subst cl. exists e. f_equal. destruct k, s; reflexivity.
Qed.

(** The step of the other truck leaves this one alone and at most hands a
    shipment to the client. *)
Lemma truck_step_other k k' s :
  k <> k' ->
  get_truck k (fst (truck_step k' s)) = get_truck k s /\
  (client (fst (truck_step k' s)) = client s
   \/ exists q, client (fst (truck_step k' s)) = fst (Client.quantity_shipped q (client s))).
Proof.
  intros N. split.
  - unfold truck_step, Truck.step, Truck.finish_delivery.
    destruct k, k'; try congruence; simpl; crush_matches; reflexivity.
  - unfold truck_step, Truck.step, Truck.finish_delivery.
    destruct k'; simpl.
    + destruct (Truck.state (small_truck s)); simpl; auto.
      destruct (_ <=? 0)%Z; simpl; auto.
      destruct (Truck.client (small_truck s)); simpl; auto.
      right. exists (Truck.current_load (small_truck s)).
      destruct (Client.quantity_shipped _ _) as [c' [v|e]]; reflexivity.
    + destruct (Truck.state (big_truck s)); simpl; auto.
      destruct (_ <=? 0)%Z; simpl; auto.
      destruct (Truck.client (big_truck s)); simpl; auto.
      right. exists (Truck.current_load (big_truck s)).
      destruct (Client.quantity_shipped _ _) as [c' [v|e]]; reflexivity.
Qed.

Lemma held_machine_step g r k truck s :
  held k truck s -> held k truck (fst (machine_step g r s)).
Proof.
  intros [W I T Rf]. constructor.
  - eapply prim_wired; [apply prim_machine_step|exact W].
  - eapply prim_client_inv; [apply prim_machine_step|exact I].
  - rewrite <- T. destruct r, k; reflexivity.
  - destruct r; exact Rf.
Qed.

Lemma held_client_step k truck s :
  held k truck s -> held k truck (fst (client_step_time s)).
Proof.
  intros [W I T Rf]. constructor.
  - eapply prim_wired; [apply prim_client_step_time|exact W].
  - eapply prim_client_inv; [apply prim_client_step_time|exact I].
  - rewrite <- T. destruct k; reflexivity.
  - apply rejects_after_tick; assumption.
Qed.

Lemma held_other_truck k k' truck s :
  k <> k' -> held k truck s -> held k truck (fst (truck_step k' s)).
Proof.
  intros N [W I T Rf]. destruct (truck_step_other s N) as [Ek Ec]. constructor.
  - eapply prim_wired; [apply prim_truck_step|exact W].
  - eapply prim_client_inv; [apply prim_truck_step|exact I].
  - rewrite Ek. exact T.
  - destruct Ec as [->|[q ->]]; [exact Rf|].
    apply rejects_after_shipment; assumption.
Qed.

Lemma held_self k truck s :
  held k truck s ->
  Truck.state truck = Truck.delivering -> (Truck.time_remaining truck <= 1)%Z ->
  held k (Truck.set_time_remaining truck (Truck.time_remaining truck - 1))
       (fst (truck_step k s)).
Proof.
  intros [W I T Rf] St Ti.
  assert (W' : wired (fst (truck_step k s)))
    by (eapply prim_wired; [apply prim_truck_step|exact W]).
  destruct (@truck_step_stuck k s W) as [e E].
  { constructor; rewrite T; assumption. }
  rewrite E in *. rewrite T in *. cbn [fst] in *. constructor.
  - exact W'.
  - destruct k; exact I.
  - destruct k; reflexivity.
  - destruct k; exact Rf.
Qed.

(** One tick of the whole system around a stuck truck. *)
Lemma held_tick g k truck s :
  held k truck s ->
  Truck.state truck = Truck.delivering -> (Truck.time_remaining truck <= 1)%Z ->
  held k (Truck.set_time_remaining truck (Truck.time_remaining truck - 1))
       (fst (step g s)).
Proof.
  intros Hd St Ti. unfold step. cbn [fst].
  rewrite (wired_machines (held_wired Hd)). cbn [fold_left].
  pose proof (held_machine_step g M2 (held_machine_step g M1 Hd)) as H2.
  fold (attempt (machine_step g M1) s) in H2.
  fold (attempt (machine_step g M2) (attempt (machine_step g M1) s)) in H2.
  set (s2 := attempt (machine_step g M2) (attempt (machine_step g M1) s)) in *.
  rewrite (wired_trucks (held_wired H2)). cbn [fold_left]. unfold attempt at 1 2 3.
  apply held_client_step.
  destruct k.
  - apply held_other_truck; [discriminate|]. apply held_self; assumption.
  - apply held_self; trivial. apply held_other_truck; [discriminate|exact H2].
Qed.

Lemma held_ticks gs : forall k truck s,
  held k truck s ->
  Truck.state truck = Truck.delivering -> (Truck.time_remaining truck <= 1)%Z ->
  held k (Truck.set_time_remaining truck
            (Truck.time_remaining truck - Z.of_nat (List.length gs)))
       (run (ticks gs) s).
Proof.
  induction gs as [|g gs IH]; intros k truck s Hd St Ti.
  - simpl. rewrite Z.sub_0_r. destruct Hd as [W I T Rf].
    constructor; trivial. rewrite T. destruct truck; reflexivity.
  - change (run (ticks (g :: gs)) s) with (run (ticks gs) (fst (step g s))).
    pose proof (held_tick g Hd St Ti) as H1.
    apply IH in H1; [|exact St|simpl; lia].
    cbn [Truck.time_remaining Truck.set_time_remaining Truck.assign] in H1.
    replace (Truck.time_remaining truck - Z.of_nat (List.length (g :: gs)))%Z
      with (Truck.time_remaining truck - 1 - Z.of_nat (List.length gs))%Z
      by (cbn [List.length]; lia).
    exact H1.
Qed.

(** C10. In a reachable system, let a truck be delivering with its
    countdown about to reach zero while the client refuses its load
    ([quantity_shipped] would raise).  Then the truck's step raises; it
    leaves the truck delivering, its load unchanged and its countdown
    lowered to zero or below, and touches nothing else.  Through any
    number of ticks of [System.step], which drops the error each time,
    the truck is still delivering the same load, its countdown one lower
    per tick, and the client still refuses the load: the delivery is
    attempted again at every tick and the truck never becomes
    available. *)
Theorem refused_delivery_sticks k s :
  reachable s -> stuck k s ->
  let truck := get_truck k s in
  (exists e,
     truck_step k s =
     (set_truck k (Truck.set_time_remaining truck (Truck.time_remaining truck - 1)) s,
      Raise e)) /\
  (Truck.time_remaining truck - 1 <= 0)%Z /\
  forall gs,
    let s' := run (ticks gs) s in
    Truck.state (get_truck k s') = Truck.delivering /\
    Truck.current_load (get_truck k s') = Truck.current_load truck /\
    Truck.time_remaining (get_truck k s')
    = (Truck.time_remaining truck - Z.of_nat (List.length gs))%Z /\
    (gs <> [] -> Truck.time_remaining (get_truck k s') <= 0)%Z /\
    rejects (client s') (Truck.current_load (get_truck k s')) = true /\
    exists e, snd (truck_step k s') = Raise e.
Proof.
  intros R Sk truck.
  pose proof (reachable_wired R) as W.
  pose proof (stuck_state Sk) as St. pose proof (stuck_time Sk) as Ti.
  split; [apply truck_step_stuck; assumption|]. split; [fold truck in Ti; lia|].
  intros gs s'.
  assert (Hd : held k truck s).
  { constructor; trivial; [apply reachable_client_inv, R|apply (stuck_refused Sk)]. }
  pose proof (held_ticks gs Hd St Ti) as [W' I' T' Rf']. fold s' in W', I', T', Rf'.
  rewrite T'. cbn [Truck.state Truck.current_load Truck.time_remaining
                   Truck.set_time_remaining Truck.assign] in *.
  repeat split; trivial.
  - intros N. subst truck. destruct gs; [congruence|]. cbn [List.length]. lia.
  - destruct (@truck_step_stuck k s' W') as [e E].
    + constructor; rewrite T'; cbn [Truck.state Truck.current_load Truck.time_remaining
                   Truck.set_time_remaining Truck.assign]; trivial. subst truck. lia.
    + exists e. rewrite E. reflexivity.
Qed.

Lemma jammed_reachable : reachable jammed.
Proof. apply reachable_run, fresh_reachable. Qed.

Lemma refused_delivery_sticks_witness :
  reachable jammed /\ stuck BigTruck jammed /\
  let truck := get_truck BigTruck jammed in
  (exists e,
     truck_step BigTruck jammed =
     (set_truck BigTruck
        (Truck.set_time_remaining truck (Truck.time_remaining truck - 1)) jammed,
      Raise e)) /\
  (Truck.time_remaining truck - 1 <= 0)%Z /\
  forall gs,
    let s' := run (ticks gs) jammed in
    Truck.state (get_truck BigTruck s') = Truck.delivering /\
    Truck.current_load (get_truck BigTruck s') = Truck.current_load truck /\
    Truck.time_remaining (get_truck BigTruck s')
    = (Truck.time_remaining truck - Z.of_nat (List.length gs))%Z /\
    (gs <> [] -> Truck.time_remaining (get_truck BigTruck s') <= 0)%Z /\
    rejects (client s') (Truck.current_load (get_truck BigTruck s')) = true /\
    exists e, snd (truck_step BigTruck s') = Raise e.
Proof.
  assert (Sk : stuck BigTruck jammed).
  { constructor; [reflexivity|vm_compute; discriminate|reflexivity]. }
  split; [exact jammed_reachable|]. split; [exact Sk|].
  apply (refused_delivery_sticks jammed_reachable Sk).
Defined.

End SystemFacts.

(** ** More on the client *)

Module ClientMore.
Import Client More Ledger.

Lemma ticks_after_order k : forall c tl,
  active c = true -> time_limit c = Some tl ->
  let c' := run (repeat StepTime k) c in
  time_passed c' = (time_passed c + Z.of_nat k)%Z /\
  state c' = state c /\ order_quantity c' = order_quantity c /\
  current_payment c' = current_payment c /\ time_limit c' = time_limit c /\
  in_time_payment c' = in_time_payment c /\
  out_of_time_payment c' = out_of_time_payment c.
Proof.
  unfold run. induction k as [|k IH]; intros c tl A T; simpl.
  - repeat split; trivial. lia.
  - assert (E : fst (step_time c) =
                mk (state c) (priority_distribution c) (order_penalties c)
                   (time_passed c + 1) (order_quantity c) (current_payment c)
                   (current_priority c) (time_limit c) (in_time_payment c)
                   (out_of_time_payment c)).
    { unfold step_time. rewrite A, T. reflexivity. }
    rewrite E.
    edestruct (IH (mk (state c) (priority_distribution c) (order_penalties c)
                   (time_passed c + 1) (order_quantity c) (current_payment c)
                   (current_priority c) (time_limit c) (in_time_payment c)
                   (out_of_time_payment c)) tl) as (H1 & H2 & H3 & H4 & H5 & H6 & H7);
      trivial.
    simpl in *. rewrite H1, H2, H3, H4, H5, H6, H7. repeat split; trivial. lia.
Qed.

(** X3. After an order of priority [p] is placed on a new client and
    [k] ticks have passed, [time_passed] is [k], and a shipment of
    [0 < q <= 1] pays [q] times the in-time rate when [k] is at most the
    deadline of [p] (the deadline tick included) and [q] times the late
    rate after it. *)
Theorem deadline_decides_rate dist pen r k q c1 p :
  place_order r (init dist pen) = (c1, Ok p) ->
  0 < q -> q <= 1 ->
  let c := run (repeat StepTime k) c1 in
  time_passed c = Z.of_nat k /\
  snd (quantity_shipped q c) =
  Ok (q * (if (Z.of_nat k <=? deadline_of pen p)%Z
           then in_time_rate pen p else late_rate pen p)).
Proof.
  intros E Q0 Q1 c.
  assert (E1 : c1 = placed (init dist pen) p).
  { unfold place_order in E. simpl in E.
    destruct (select_priority r 0 dist) as [p'|]; [|discriminate].
    unfold placed, deadline_of, in_time_rate, late_rate. simpl.
    destruct (pen p') as [[tl itp] otp] eqn:Ep. injection E as <- <-.
    rewrite Ep. reflexivity. }
  destruct (@ticks_after_order k c1 (deadline_of pen p))
    as (H1 & H2 & H3 & H4 & H5 & H6 & H7); [subst c1; reflexivity..|].
  fold c in H1, H2, H3, H4, H5, H6, H7.
  subst c1. simpl in *. split; [exact H1|].
  unfold quantity_shipped, active, applicable_rate.
  rewrite H1, H2, H3, H5, H6, H7. simpl.
  assert (G1 : Qle_bool q 0 = false) by (apply Qle_bool_false; lra).
  assert (G2 : Qlt_bool 1 (0 + q) = false) by (apply Qlt_bool_false; lra).
  rewrite G1, G2. simpl.
  destruct (Z.of_nat k <=? deadline_of pen p)%Z; reflexivity.
Qed.

Lemma deadline_decides_rate_witness :
  let c0 := init default_priority_distribution default_order_penalties in
  place_order (1 # 2) c0 = (placed c0 medium, Ok medium) /\
  0 < 1 # 3 /\ 1 # 3 <= 1 /\
  let c := run (repeat StepTime 16) (placed c0 medium) in
  time_passed c = Z.of_nat 16 /\
  snd (quantity_shipped (1 # 3) c) =
  Ok ((1 # 3) * (if (Z.of_nat 16 <=? deadline_of default_order_penalties medium)%Z
                 then in_time_rate default_order_penalties medium
                 else late_rate default_order_penalties medium)).
Proof.
  intros c0.
  assert (E : place_order (1 # 2) c0 = (placed c0 medium, Ok medium)) by reflexivity.
  assert (Q0 : 0 < 1 # 3) by reflexivity.
  assert (Q1 : 1 # 3 <= 1) by discriminate.
  split; [exact E|]. split; [exact Q0|]. split; [exact Q1|].
  apply (@deadline_decides_rate default_priority_distribution default_order_penalties
           (1 # 2) 16 (1 # 3) (placed c0 medium) medium E Q0 Q1).
Defined.

End ClientMore.

(** ** More on the machine *)

Module MachineMore.
Import Machine More.

(** X4. [retrieve_quantity] hands out [min(max_quantity, stored_output)]
    and subtracts it, touching nothing else: what is left plus what is
    returned is what was stored; the result is at most the request and at
    most the store; with both non-negative nothing goes negative.  A
    negative request is not refused: it is returned as is and the store
    grows. *)
Theorem retrieve_quantity_accounts max_quantity m :
  let m' := fst (retrieve_quantity max_quantity m) in
  let q := snd (retrieve_quantity max_quantity m) in
  m' = set_stored_output m (stored_output m - q) /\
  stored_output m' + q == stored_output m /\
  q <= max_quantity /\ q <= stored_output m /\
  (stored_output m < max_quantity -> q = stored_output m) /\
  (max_quantity <= stored_output m -> q = max_quantity) /\
  (0 <= max_quantity -> 0 <= stored_output m -> 0 <= q /\ 0 <= stored_output m') /\
  (max_quantity < 0 -> max_quantity <= stored_output m ->
   stored_output m < stored_output m').
Proof.
  unfold retrieve_quantity. cbn [fst snd].
  cbn [stored_output set_stored_output assign].
  destruct (py_min_spec max_quantity (stored_output m)) as [[L ->]|[L ->]];
    repeat split; intros; try lra; try reflexivity.
Qed.

Lemma maintenance_tick draw m :
  state m = maintenance -> (1 < time_remaining m)%Z ->
  step draw m = (set_time_remaining m (time_remaining m - 1), Ok false).
Proof.
  intros S T. unfold step. rewrite S.
  cbn [time_remaining set_time_remaining assign].
  destruct (Z.leb_spec (time_remaining m - 1) 0); [lia|reflexivity].
Qed.

Lemma maintenance_done draw m :
  state m = maintenance -> (time_remaining m <= 1)%Z ->
  step draw m =
  (set_state (set_maintenance_active
                (set_time_remaining m (time_remaining m - 1)) true) idle, Ok true).
Proof.
  intros S T. unfold step. rewrite S.
  cbn [time_remaining set_time_remaining assign].
  destruct (Z.leb_spec (time_remaining m - 1) 0); [reflexivity|lia].
Qed.

Lemma maintenance_ticks draw k : forall m,
  state m = maintenance -> (Z.of_nat k < Z.max 1 (time_remaining m))%Z ->
  steps k draw m = set_time_remaining m (time_remaining m - Z.of_nat k).
Proof.
  induction k as [|k IH]; intros m S T.
  - simpl. rewrite Z.sub_0_r. destruct m; reflexivity.
  - cbn [steps]. rewrite maintenance_tick; trivial; [|lia]. cbn [fst].
    rewrite IH; [|exact S|cbn [time_remaining set_time_remaining assign]; lia].
    unfold set_time_remaining, assign. simpl. f_equal. lia.
Qed.

Lemma steps_last draw k : forall m,
  steps (S k) draw m = fst (step draw (steps k draw m)).
Proof.
  induction k as [|k IH]; intros m; [reflexivity|].
  change (steps (S (S k)) draw m) with (steps (S k) draw (fst (step draw m))).
  rewrite IH. reflexivity.
Qed.

(** X5. The maintenance of an idle machine: [request_maintenance]
    returns [True] and adds the operator cost to [total_operator_time];
    the machine then stays in maintenance for [max(1, maintenance_time)]
    steps, [step] returning [True] on the last of them only, and after it
    the machine is idle with [maintenance_active] set and its stored
    output as before. *)
Theorem maintenance_cycle draw m :
  state m = idle ->
  let started := fst (request_maintenance m) in
  let n := Z.to_nat (Z.max 1 (maintenance_time m)) in
  snd (request_maintenance m) = Ok true /\
  total_operator_time started
  = (total_operator_time m + maintenance_operator_cost m)%Z /\
  (forall k, (k < n)%nat ->
     state (steps k draw started) = maintenance /\
     maintenance_active (steps k draw started) = maintenance_active m /\
     snd (step draw (steps k draw started)) = Ok (Nat.eqb (S k) n)) /\
  state (steps n draw started) = idle /\
  maintenance_active (steps n draw started) = true /\
  stored_output (steps n draw started) = stored_output m /\
  is_idle (steps n draw started) = true.
Proof.
  intros I started n.
  assert (E : request_maintenance m =
              (set_total_operator_time
                 (set_time_remaining (set_state m maintenance) (maintenance_time m))
                 (total_operator_time m + maintenance_operator_cost m), Ok true)).
  { unfold request_maintenance. rewrite I. reflexivity. }
  subst started. rewrite E. cbn [fst snd].
  set (m0 := set_total_operator_time _ _).
  assert (S0 : state m0 = maintenance) by reflexivity.
  assert (T0 : time_remaining m0 = maintenance_time m) by reflexivity.
  assert (K : forall k, (k < n)%nat ->
              steps k draw m0 = set_time_remaining m0 (time_remaining m0 - Z.of_nat k)).
  { intros k Hk. apply maintenance_ticks; trivial. rewrite T0. subst n. lia. }
  split; [reflexivity|]. split; [reflexivity|]. split.
  - intros k Hk. rewrite (K k Hk). split; [reflexivity|]. split; [reflexivity|].
    destruct (Nat.eqb_spec (S k) n) as [En|En].
    + rewrite maintenance_done; trivial.
      cbn [time_remaining set_time_remaining assign]. rewrite T0. subst n. lia.
    + rewrite maintenance_tick; trivial.
      cbn [time_remaining set_time_remaining assign]. rewrite T0. subst n. lia.
  - assert (Hn : n = S (pred n)) by (subst n; lia).
    assert (Sn : steps n draw m0 =
                 fst (step draw (steps (pred n) draw m0))).
    { rewrite Hn at 1. apply steps_last. }
    rewrite Sn, (K (pred n)) by lia.
    rewrite maintenance_done; trivial;
      [|cbn [time_remaining set_time_remaining assign]; rewrite T0; subst n; lia].
    repeat split; reflexivity.
Qed.

Lemma maintenance_cycle_witness :
  let m := init "M1" in
  state m = idle /\
  let started := fst (request_maintenance m) in
  let n := Z.to_nat (Z.max 1 (maintenance_time m)) in
  snd (request_maintenance m) = Ok true /\
  total_operator_time started
  = (total_operator_time m + maintenance_operator_cost m)%Z /\
  (forall k, (k < n)%nat ->
     state (steps k 0 started) = maintenance /\
     maintenance_active (steps k 0 started) = maintenance_active m /\
     snd (step 0 (steps k 0 started)) = Ok (Nat.eqb (S k) n)) /\
  state (steps n 0 started) = idle /\
  maintenance_active (steps n 0 started) = true /\
  stored_output (steps n 0 started) = stored_output m /\
  is_idle (steps n 0 started) = true.
Proof.
  intros m. split; [reflexivity|].
  apply (@maintenance_cycle 0%nat (init "M1") eq_refl).
Defined.


Lemma random_choices_in population draw :
  population <> [] ->
  exists o, random_choices population draw = Ok o /\ In o population.
Proof.
  intros N. destruct population as [|o rest]; [congruence|].
  unfold random_choices. eexists. split; [reflexivity|].
  apply nth_In. cbn [List.length]. lia.
Qed.

Lemma processing_tick draw m :
  state m = processing -> (1 < time_remaining m)%Z ->
  step draw m = (set_time_remaining m (time_remaining m - 1), Ok false).
Proof.
  intros S T. unfold step. rewrite S.
  cbn [time_remaining set_time_remaining assign].
  destruct (Z.leb_spec (time_remaining m - 1) 0); [lia|reflexivity].
Qed.

Lemma processing_ticks draw k : forall m,
  state m = processing -> (Z.of_nat k < Z.max 1 (time_remaining m))%Z ->
  steps k draw m = set_time_remaining m (time_remaining m - Z.of_nat k).
Proof.
  induction k as [|k IH]; intros m S T.
  - simpl. rewrite Z.sub_0_r. destruct m; reflexivity.
  - cbn [steps]. rewrite processing_tick; trivial; [|lia]. cbn [fst].
    rewrite IH; [|exact S|cbn [time_remaining set_time_remaining assign]; lia].
    unfold set_time_remaining, assign. simpl. f_equal. lia.
Qed.

Lemma processing_done draw m b o :
  state m = processing -> (time_remaining m <= 1)%Z ->
  current_batch_size m = Some b ->
  random_choices (map fst (table m b)) draw = Ok o ->
  let m1 := set_time_remaining m (time_remaining m - 1) in
  step draw m =
  (set_current_batch_size
     (set_state match o with
                | produced x => set_stored_output m1 (stored_output m1 + quantity_of x)
                | none => m1
                end idle) None, Ok true).
Proof.
  intros S T B R m1. unfold step. rewrite S. fold m1.
  assert (L : (time_remaining m1 <=? 0)%Z = true)
    by (apply Z.leb_le; subst m1; cbn [time_remaining set_time_remaining assign]; lia).
  rewrite L.
  change (current_batch_size m1) with (current_batch_size m). rewrite B.
  change (if maintenance_active m1 then maintenance_effect m1 b
          else success_probabilities m1 b) with (table m b).
  rewrite R. reflexivity.
Qed.

(** X6. A machine processing batch [b], with a non-empty outcome table:
    it stays in processing, its stored output unchanged, for
    [max(1, time_remaining)] steps, [step] returning [True] on the last of
    them only; on that step one outcome of the table in force (the
    maintenance table when [maintenance_active], the base table
    otherwise) is added to the stored output, and the machine is idle
    with no batch and the same maintenance flag. *)
Theorem processing_cycle draw m b :
  state m = processing -> current_batch_size m = Some b -> table m b <> [] ->
  let n := Z.to_nat (Z.max 1 (time_remaining m)) in
  (forall k, (k < n)%nat ->
     state (steps k draw m) = processing /\
     stored_output (steps k draw m) = stored_output m /\
     snd (step draw (steps k draw m)) = Ok (Nat.eqb (S k) n)) /\
  exists o,
    In o (map fst (table m b)) /\
    state (steps n draw m) = idle /\
    current_batch_size (steps n draw m) = None /\
    stored_output (steps n draw m) == stored_output m + yield o /\
    maintenance_active (steps n draw m) = maintenance_active m.
Proof.
  intros S B N n.
  assert (K : forall k, (k < n)%nat ->
              steps k draw m = set_time_remaining m (time_remaining m - Z.of_nat k)).
  { intros k Hk. apply processing_ticks; trivial. subst n. lia. }
  destruct (@random_choices_in (map fst (table m b)) draw) as (o & Ro & Io).
  { destruct (table m b); [congruence|discriminate]. }
  split.
  - intros k Hk. rewrite (K k Hk). split; [exact S|]. split; [reflexivity|].
    destruct (Nat.eqb_spec (Datatypes.S k) n) as [En|En].
    + erewrite processing_done; try eassumption; trivial.
      cbn [time_remaining set_time_remaining assign]. subst n. lia.
    + rewrite processing_tick; trivial.
      cbn [time_remaining set_time_remaining assign]. subst n. lia.
  - exists o. split; [exact Io|].
    assert (Hn : n = Datatypes.S (pred n)) by (subst n; lia).
    rewrite Hn, steps_last, (K (pred n)) by lia.
    erewrite processing_done; try eassumption; trivial;
      [|cbn [time_remaining set_time_remaining assign]; subst n; lia].
    destruct o; simpl; repeat split; trivial; lra.
Qed.

Lemma processing_cycle_witness :
  let m := set_time_remaining
             (set_current_batch_size (set_state (init "M1") processing) (Some full)) 3 in
  state m = processing /\ current_batch_size m = Some full /\ table m full <> [] /\
  let n := Z.to_nat (Z.max 1 (time_remaining m)) in
  (forall k, (k < n)%nat ->
     state (steps k 1 m) = processing /\
     stored_output (steps k 1 m) = stored_output m /\
     snd (step 1 (steps k 1 m)) = Ok (Nat.eqb (S k) n)) /\
  exists o,
    In o (map fst (table m full)) /\
    state (steps n 1 m) = idle /\
    current_batch_size (steps n 1 m) = None /\
    stored_output (steps n 1 m) == stored_output m + yield o /\
    maintenance_active (steps n 1 m) = maintenance_active m.
Proof.
  intros m.
  assert (N : table m full <> []) by discriminate.
  split; [reflexivity|]. split; [reflexivity|]. split; [exact N|].
  apply (@processing_cycle 1%nat m full eq_refl eq_refl N).
Defined.

End MachineMore.

(** ** More on the system *)

Module SystemMore.
Import System Line More SystemFacts.

Lemma parse_batch_none b :
  Machine.parse_batch b = None <->
  b <> "full"%string /\ b <> "half"%string /\ b <> "third"%string.
Proof.
  unfold Machine.parse_batch.
  destruct (String.eqb_spec b "full"); [split; [discriminate|tauto]|].
  destruct (String.eqb_spec b "half"); [split; [discriminate|tauto]|].
  destruct (String.eqb_spec b "third"); [split; [discriminate|tauto]|].
  tauto.
Qed.

(** X7. A machine that is not idle refuses every processing request,
    also one for an unknown batch size, by returning [False], and nothing
    in the system changes; an idle machine asked for a batch size other
    than full, half or third raises [ValueError], and nothing changes. *)
Theorem request_processing_refusals r b s :
  (Machine.state (get_machine r s) <> Machine.idle ->
   machine_request_processing r b s = (s, Ok false)) /\
  (Machine.state (get_machine r s) = Machine.idle ->
   b <> "full"%string -> b <> "half"%string -> b <> "third"%string ->
   machine_request_processing r b s = (s, Raise ValueError)).
Proof.
  unfold machine_request_processing, Machine.request_processing. split.
  - intros N. destruct (Machine.state (get_machine r s)); simpl; trivial. congruence.
  - intros I N1 N2 N3. rewrite I. simpl.
    assert (P : Machine.parse_batch b = None) by (apply parse_batch_none; auto).
    rewrite P. reflexivity.
Qed.

(** X8. An idle machine with a source machine, asked for a valid batch:
    if the source stores less than the batch needs, the request returns
    [False] and yet the source's stored output has been taken and is
    left at zero; otherwise the need is subtracted from the source and
    processing starts. *)
Theorem request_processing_linked r src bs b s :
  Machine.source_machine (get_machine r s) = Some src ->
  Machine.state (get_machine r s) = Machine.idle ->
  Machine.parse_batch bs = Some b ->
  let upstream := get_machine src s in
  let need := Machine.quantity_of b in
  (Machine.stored_output upstream < need ->
   machine_request_processing r bs s =
   (set_machine src (Machine.set_stored_output upstream
                       (Machine.stored_output upstream - Machine.stored_output upstream)) s,
    Ok false)) /\
  (need <= Machine.stored_output upstream ->
   machine_request_processing r bs s =
   (Machine.start_processing get_machine set_machine r b
      (set_machine src (Machine.set_stored_output upstream
                          (Machine.stored_output upstream - need)) s),
    Ok true)).
Proof.
  intros Src I P upstream need.
  unfold machine_request_processing, Machine.request_processing.
  rewrite I, P, Src. cbn [negb Machine.state_eqb].
  unfold Machine.retrieve_quantity. fold upstream. fold need.
  split; intros L.
  - destruct (py_min_spec need (Machine.stored_output upstream)) as [[L1 E]|[L1 E]];
      [|lra]. rewrite E.
    assert (T : Qlt_bool (Machine.stored_output upstream) need = true)
      by (apply Qlt_bool_iff; exact L).
    rewrite T. reflexivity.
  - destruct (py_min_spec need (Machine.stored_output upstream)) as [[L1 E]|[L1 E]];
      [lra|]. rewrite E.
    assert (T : Qlt_bool need need = false) by (apply Qlt_bool_false; lra).
    rewrite T. reflexivity.
Qed.

Lemma request_processing_linked_witness :
  Machine.source_machine (get_machine M2 starved) = Some M1 /\
  Machine.state (get_machine M2 starved) = Machine.idle /\
  Machine.parse_batch "half" = Some Machine.half /\
  let upstream := get_machine M1 starved in
  let need := Machine.quantity_of Machine.half in
  (Machine.stored_output upstream < need ->
   machine_request_processing M2 "half" starved =
   (set_machine M1 (Machine.set_stored_output upstream
                       (Machine.stored_output upstream - Machine.stored_output upstream))
      starved,
    Ok false)) /\
  (need <= Machine.stored_output upstream ->
   machine_request_processing M2 "half" starved =
   (Machine.start_processing get_machine set_machine M2 Machine.half
      (set_machine M1 (Machine.set_stored_output upstream
                          (Machine.stored_output upstream - need)) starved),
    Ok true)).
Proof.
  split; [reflexivity|]. split; [reflexivity|]. split; [reflexivity|].
  apply (@request_processing_linked M2 M1 "half" Machine.half starved
           eq_refl eq_refl eq_refl).
Defined.

(** C1. A failed request does change the upstream machine.  On the
    system in which M1 stores a third and M2, whose source is M1, is
    idle, M2's request for a half batch returns [False] and leaves M2
    idle, but M1's stored output, 1/3 before the request, is 0 after
    it. *)
Theorem failed_request_empties_source :
  let s' := fst (machine_request_processing M2 "half" starved) in
  Machine.state (m2 starved) = Machine.idle /\
  Machine.source_machine (m2 starved) = Some M1 /\
  Machine.stored_output (m1 starved) == 1 # 3 /\
  snd (machine_request_processing M2 "half" starved) = Ok false /\
  Machine.state (m2 s') = Machine.idle /\
  Machine.stored_output (m1 s') == 0 /\
  ~ Machine.stored_output (m1 s') == Machine.stored_output (m1 starved).
Proof.
  vm_compute. repeat split; try reflexivity. intros E. discriminate E.
Qed.


(** *** Construction and reset *)

Lemma select_default r :
  Client.select_priority r 0 Client.default_priority_distribution =
  if Qle_bool r 1 then Some (default_priority r) else None.
Proof.
  unfold default_priority. simpl.
  assert (E1 : Qle_bool r (0 + (4 # 10)) = Qle_bool r (2 # 5))
    by (apply Qleb_comp; reflexivity).
  assert (E2 : Qle_bool r (0 + (4 # 10) + (5 # 10)) = Qle_bool r (9 # 10))
    by (apply Qleb_comp; reflexivity).
  assert (E3 : Qle_bool r (0 + (4 # 10) + (5 # 10) + (1 # 10)) = Qle_bool r 1)
    by (apply Qleb_comp; reflexivity).
  rewrite E1, E2, E3.
  destruct (Qle_bool r (2 # 5)) eqn:A.
  - assert (B : Qle_bool r 1 = true)
      by (apply Qle_bool_iff; apply Qle_bool_iff in A; lra).
    rewrite B. reflexivity.
  - destruct (Qle_bool r (9 # 10)) eqn:C; trivial.
    assert (B : Qle_bool r 1 = true)
      by (apply Qle_bool_iff; apply Qle_bool_iff in C; lra).
    rewrite B. reflexivity.
Qed.

(** The system [__init__] builds for priority [p]. *)
Lemma init_value g :
  init g =
  if Qle_bool (rand_val g) 1 then
    Ok (fst (m1_processing_full
               (mk (placed (client blank) (default_priority (rand_val g)))
                   (m1 blank) (m2 blank) (small_truck blank) (big_truck blank)
                   0 0 (Some (default_priority (rand_val g)))
                   [M1; M2] [SmallTruck; BigTruck] 0)))
  else Raise KeyError.
Proof.
  unfold init, Client.place_order.
  cbn -[Client.select_priority m1_processing_full].
  rewrite select_default.
  destruct (Qle_bool (rand_val g) 1); [|reflexivity].
  destruct (default_priority (rand_val g)); reflexivity.
Qed.

(** X9. [System()] succeeds exactly when the client's [place_order]
    does, and raises what it raises.  When it succeeds with priority
    [p] the observation is the one of a fresh line: priority [p], time
    to penalty at the deadline of [p], M1 in [processing_full] with 3
    ticks to go, M2 and both trucks idle, nothing stored or shipped; M1
    has consumed one unit of raw material and M2 none. *)
Theorem init_fresh g :
  match snd (Client.place_order (rand_val g)
               (Client.init Client.default_priority_distribution
                            Client.default_order_penalties)) with
  | Ok p =>
      exists s,
        init g = Ok s /\
        get_state s = Ok (fresh_observation p) /\
        current_priority s = Some p /\
        Client.current_priority (client s) = Some p /\
        Machine.raw_material_consumed (m1 s) == 1 /\
        Machine.raw_material_consumed (m2 s) == 0
  | Raise e => init g = Raise e
  end.
Proof.
  rewrite init_value. unfold Client.place_order.
  cbn -[Client.select_priority]. rewrite select_default.
  destruct (Qle_bool (rand_val g) 1); [|reflexivity].
  destruct (default_priority (rand_val g)); cbn [snd];
    eexists; repeat split; reflexivity.
Qed.

Lemma init_configured g s : init g = Ok s -> configured s.
Proof.
  rewrite init_value. destruct (Qle_bool (rand_val g) 1); [|discriminate].
  intros E. injection E as <-. constructor; reflexivity.
Qed.

Ltac conf_done :=
  constructor; simpl; first [assumption | setters; simpl in *; congruence].

Lemma prim_configured s s' : prim s s' -> wired s -> configured s -> configured s'.
Proof.
  intros P [W1 W2 W3 W4 W5 W6 W7 W8] [C1 C2 C3 C4 C5 C6 C7 C8 C9 C10].
  destruct P as [r b s|r s|k s|g r s|k s|s|s|s|r s|k s|x s|p s].
  - unfold machine_request_processing, Machine.request_processing,
      Machine.start_processing, Machine.retrieve_quantity.
    destruct r; simpl; rewrite ?W3, ?W4; setters; crush_matches; simpl;
      conf_done.
  - unfold machine_request_maintenance, Machine.request_maintenance.
    destruct r; setters; crush_matches; simpl; conf_done.
  - unfold truck_request_shipment, Truck.request_shipment, Machine.retrieve_quantity.
    destruct k; simpl; rewrite ?W5, ?W6, ?W7, ?W8; setters; crush_matches; simpl;
      conf_done.
  - unfold machine_step, Machine.step.
    destruct r; setters; simpl; crush_matches; simpl; conf_done.
  - unfold truck_step, Truck.step, Truck.finish_delivery.
    assert (Q : forall q c, Client.priority_distribution (fst (Client.quantity_shipped q c))
                            = Client.priority_distribution c /\
                            Client.order_penalties (fst (Client.quantity_shipped q c))
                            = Client.order_penalties c).
    { intros q c. unfold Client.quantity_shipped. crush_matches; split; reflexivity. }
    destruct k; simpl; rewrite ?W6, ?W8; setters; simpl.
    + destruct (Truck.state (small_truck s)); [conf_done|].
      destruct (_ <=? 0)%Z; [|conf_done].
      destruct (Q (Truck.current_load (small_truck s)) (client s)) as [Q1 Q2].
      destruct (Client.quantity_shipped _ (client s)) as [c' [v|e]];
        simpl in *; conf_done.
    + destruct (Truck.state (big_truck s)); [conf_done|].
      destruct (_ <=? 0)%Z; [|conf_done].
      destruct (Q (Truck.current_load (big_truck s)) (client s)) as [Q1 Q2].
      destruct (Client.quantity_shipped _ (client s)) as [c' [v|e]];
        simpl in *; conf_done.
  - unfold client_step_time, Client.step_time. simpl.
    crush_matches; conf_done.
  - conf_done.
  - conf_done.
  - destruct r; conf_done.
  - destruct k; conf_done.
  - unfold Client.place_order. simpl.
    crush_matches; conf_done.
  - conf_done.
Qed.

Lemma reachable_configured s : reachable s -> configured s.
Proof.
  intros R. apply (reachable_ind_prim (fun s => wired s /\ configured s)); trivial.
  - intros g s0 E. split; [eapply init_wired|eapply init_configured]; eauto.
  - intros s1 s2 P [W C]. split; [eapply prim_wired|eapply prim_configured]; eauto.
Qed.


(** [reset] on a system of the fixed configuration: every object is put
    back, then an order is placed and, if that succeeds, M1 is asked for a
    full batch. *)
Lemma reset_unfold g s :
  configured s ->
  reset g s =
  let s4 := set_current_priority (current_priority s) blank in
  let placed := Client.place_order (rand_val g) (client s4) in
  let s5 := set_client TheClient (fst placed) s4 in
  let s6 := match snd placed with
            | Ok p => fst (m1_processing_full (set_current_priority (Some p) s5))
            | Raise _ => s5
            end in
  (s6, get_state s6).
Proof.
  intros [C1 C2 C3 C4 C5 C6 C7 C8 C9 C10].
  unfold reset.
  destruct s as [c m1 m2 ts tb tm tp cp ms tks ces].
  cbn [client System.m1 System.m2 small_truck big_truck time total_profit
       current_priority machines trucks current_enacted_strategy] in *.
  subst.
  cbn [fold_left set_machine set_truck set_client set_current_enacted_strategy
       set_current_priority get_machine get_truck client System.m1 System.m2
       small_truck big_truck time total_profit current_priority machines trucks
       current_enacted_strategy blank].
  rewrite C3, C4, C5, C6. unfold Client.reset. rewrite C1, C2.
  destruct (Client.place_order _ _) as [c' [p|e]]; reflexivity.
Qed.

(** X10. On every reachable system, whatever state the line is in:
    [reset] with a draw [<= 1] leaves exactly the system that [System()]
    builds with that draw and returns its observation; with a draw above
    1 the order fails, the error is swallowed, every object is left
    blank with an idle client, and the observation shows priority
    [none] and time to penalty -1. *)
Theorem reset_restores g s :
  reachable s ->
  (rand_val g <= 1 ->
   exists s0, init g = Ok s0 /\ reset g s = (s0, get_state s0)) /\
  (1 < rand_val g ->
   let cleared := set_current_priority (current_priority s) blank in
   reset g s = (cleared, get_state cleared) /\
   Client.state (client cleared) = Client.idle /\
   exists o, get_state cleared = Ok o /\
             client_current_priority o = "none"%string /\ time_to_penalty o = (-1)%Z).
Proof.
  intros R. rewrite (reset_unfold g (reachable_configured R)).
  cbn zeta. unfold Client.place_order.
  cbn -[Client.select_priority m1_processing_full get_state].
  rewrite select_default, init_value. split; intros L.
  - assert (B : Qle_bool (rand_val g) 1 = true) by (apply Qle_bool_iff; exact L).
    rewrite B. eexists. split; [reflexivity|].
    destruct (default_priority (rand_val g)); reflexivity.
  - assert (B : Qle_bool (rand_val g) 1 = false) by (apply Qle_bool_false; exact L).
    rewrite B. cbn -[get_state]. split; [reflexivity|]. split; [reflexivity|].
    eexists. split; [reflexivity|]. split; reflexivity.
Qed.

Lemma reset_restores_witness :
  reachable jammed /\
  (rand_val first_entry <= 1 ->
   exists s0, init first_entry = Ok s0 /\ reset first_entry jammed = (s0, get_state s0)) /\
  (1 < rand_val first_entry ->
   let cleared := set_current_priority (current_priority jammed) blank in
   reset first_entry jammed = (cleared, get_state cleared) /\
   Client.state (client cleared) = Client.idle /\
   exists o, get_state cleared = Ok o /\
             client_current_priority o = "none"%string /\ time_to_penalty o = (-1)%Z).
Proof.
  split; [exact jammed_reachable|].
  apply (reset_restores first_entry jammed_reachable).
Defined.


(** *** Dispatch *)

Lemma lookup_known a :
  In a ("reset"%string :: alphabet) <-> lookup a action_methods <> None.
Proof.
  unfold alphabet, action_methods. cbn [lookup In].
  repeat match goal with
  | |- context [String.eqb a ?k] => destruct (String.eqb_spec a k) as [->|?]
  end; split; intros H; try discriminate; try tauto; try congruence.
  exfalso.
  repeat match goal with H : _ \/ _ |- _ => destruct H end; congruence.
Qed.

Lemma reset_returns_state g s : snd (reset g s) = get_state (fst (reset g s)).
Proof.
  unfold reset. simpl. destruct (Client.place_order _ _) as [c' [p|e]]; reflexivity.
Qed.

Lemma action_returns_observation a g s :
  lookup a action_methods <> None ->
  snd (action a g s) = get_state (fst (action a g s)).
Proof.
  unfold action, action_methods. cbn [lookup].
  repeat match goal with
  | |- context [String.eqb a ?k] => destruct (String.eqb_spec a k) as [->|?]
  end; intros H; try reflexivity; try apply reset_returns_state.
  congruence.
Qed.

(** X11. [action] on a reachable system: each of the eleven names of
    [alphabet], and [reset], returns an observation and never raises; any
    other string raises [ValueError] and leaves the system as it is; the
    twelve names are distinct. *)
Theorem action_dispatch a g s :
  reachable s ->
  (In a ("reset"%string :: alphabet) -> exists o, snd (action a g s) = Ok o) /\
  (~ In a ("reset"%string :: alphabet) -> action a g s = (s, Raise ValueError)) /\
  NoDup ("reset"%string :: alphabet) /\ List.length alphabet = 11%nat.
Proof.
  intros R. split; [|split; [|split]].
  - intros I. apply lookup_known in I.
    rewrite (@action_returns_observation a g s I).
    apply get_state_ok, reachable_client_inv.
    apply (reachable_call (Action a g)) in R. exact R.
  - intros N. unfold action.
    destruct (lookup a action_methods) eqn:E; trivial.
    exfalso. apply N. apply lookup_known. congruence.
  - repeat constructor; simpl; intuition discriminate.
  - reflexivity.
Qed.

Lemma action_dispatch_witness :
  reachable fresh /\
  (In "step"%string ("reset"%string :: alphabet) ->
   exists o, snd (action "step" first_entry fresh) = Ok o) /\
  (~ In "step"%string ("reset"%string :: alphabet) ->
   action "step" first_entry fresh = (fresh, Raise ValueError)) /\
  NoDup ("reset"%string :: alphabet) /\ List.length alphabet = 11%nat.
Proof.
  split; [exact fresh_reachable|].
  apply (action_dispatch "step" first_entry fresh_reachable).
Defined.

(** *** The strategy's bookkeeping *)

(** X12. In the decision variables of [enact_strategy],
    [processing_m2_amount] is always 0, because the state of a machine is
    the bare string [processing] and never names the batch size; so
    [total_material] leaves out the batch M2 is processing: it is the
    material downstream of M1 minus M2's batch in flight, strictly less
    than that material whenever M2 is processing. *)
Theorem total_material_misses_m2_batch s :
  processing_m2_amount (decide s) = 0 /\
  total_material (decide s) == downstream s - in_flight (m2 s) /\
  (Machine.state (m2 s) = Machine.processing ->
   forall b, Machine.current_batch_size (m2 s) = Some b ->
             total_material (decide s) < downstream s).
Proof.
  assert (P : processing_m2_amount (decide s) = 0)
    by (unfold decide; simpl; destruct (Machine.state (m2 s)); reflexivity).
  assert (T : total_material (decide s) == downstream s - in_flight (m2 s)).
  { unfold decide, downstream, in_transit. cbn -[Qplus Qminus in_flight].
    destruct (Machine.state (m2 s)) eqn:S2;
      destruct (Truck.state (small_truck s)), (Truck.state (big_truck s));
      cbn -[Qplus Qminus in_flight]; ring. }
  split; [exact P|]. split; [exact T|].
  intros S b B. rewrite T.
  assert (F : in_flight (m2 s) = Machine.quantity_of b)
    by (unfold in_flight; rewrite S, B; reflexivity).
  rewrite F. pose proof (quantity_of_pos b). lra.
Qed.


(** *** Calls other than reset *)

Lemma fold_preserves {A} (P : t -> Prop) (f : t -> A -> t) (l : list A) :
  (forall s a, P s -> P (f s a)) -> forall s, P s -> P (fold_left f l s).
Proof.
  intros Hf. induction l as [|a l IH]; simpl; intros s Ps; auto.
Qed.

Lemma call_preserves (P : t -> Prop) :
  (forall r b s, P s -> P (fst (machine_request_processing r b s))) ->
  (forall r s, P s -> P (fst (machine_request_maintenance r s))) ->
  (forall k s, P s -> P (fst (truck_request_shipment k s))) ->
  (forall g r s, P s -> P (fst (machine_step g r s))) ->
  (forall k s, P s -> P (fst (truck_step k s))) ->
  (forall s, P s -> P (fst (client_step_time s))) ->
  forall c s, no_reset c = true -> P s -> P (apply_call c s).
Proof.
  intros H1 H2 H3 H4 H5 H6.
  assert (Ha : forall a g s, a <> "reset"%string -> P s -> P (fst (action a g s))).
  { intros a g s N Ps.
    destruct (action_cases a g s) as [E|[[c E]|[[_ E]|[Er _]]]]; try rewrite E.
    - exact Ps.
    - rewrite method_request. cbn [fst]. destruct c; cbn [request_of]; auto.
    - unfold step. cbn [fst]. apply H6.
      apply fold_preserves; [intros; apply H5; trivial|].
      apply fold_preserves; [intros; apply H4; trivial|exact Ps].
    - congruence. }
  intros [a g|g] s N Ps; simpl in *.
  - apply Ha; trivial. apply negb_true_iff in N.
    destruct (String.eqb_spec a "reset"); congruence.
  - rewrite enact_strategy_state. destruct (terminal s); trivial.
    apply Ha; trivial.
    pose proof (choose_command_cases (decide s)) as C. simpl in C.
    destruct C as [<-|[<-|[<-|[<-|[<-|[<-|[]]]]]]]; discriminate.
Qed.

Lemma run_preserves (P : t -> Prop) :
  (forall c s, no_reset c = true -> P s -> P (apply_call c s)) ->
  forall calls s, forallb no_reset calls = true -> P s -> P (run calls s).
Proof.
  intros H. unfold run. induction calls as [|c calls IH]; simpl; intros s N Ps; trivial.
  apply andb_true_iff in N. destruct N as [N1 N2]. apply IH; auto.
Qed.

(** X13. Once a machine has [maintenance_active] set, it keeps it through
    any sequence of [action] and [enact_strategy] calls that contains no
    [reset]: no step, batch or further maintenance clears it. *)
Theorem maintenance_flag_stays calls r s :
  forallb no_reset calls = true ->
  Machine.maintenance_active (get_machine r s) = true ->
  Machine.maintenance_active (get_machine r (run calls s)) = true.
Proof.
  intros N A.
  apply (run_preserves
           (fun s => Machine.maintenance_active (get_machine r s) = true)); trivial.
  clear. apply call_preserves.
  - intros r' b s A.
    unfold machine_request_processing, Machine.request_processing,
      Machine.start_processing, Machine.retrieve_quantity.
    destruct r, r'; simpl; crush_matches;
      repeat match goal with m : mref |- _ => destruct m end; simpl; trivial.
  - intros r' s A. unfold machine_request_maintenance, Machine.request_maintenance.
    destruct r, r'; simpl; crush_matches; simpl; trivial.
  - intros k s A. unfold truck_request_shipment, Truck.request_shipment,
      Machine.retrieve_quantity.
    destruct r, k; simpl; crush_matches;
      repeat match goal with m : mref |- _ => destruct m end; simpl; trivial.
  - intros g r' s A. unfold machine_step, Machine.step.
    destruct r, r'; simpl; crush_matches; simpl; trivial.
  - intros k s A. unfold truck_step, Truck.step, Truck.finish_delivery.
    destruct r, k; simpl; crush_matches; simpl; trivial.
  - intros s A. destruct r; exact A.
Qed.

Lemma maintenance_flag_stays_witness :
  let s := run [Action "m2_maintenance" first_entry; Action "step" first_entry;
                Action "step" first_entry] fresh in
  let calls := repeat (EnactStrategy first_entry) 20 in
  forallb no_reset calls = true /\
  Machine.maintenance_active (get_machine M2 s) = true /\
  Machine.maintenance_active (get_machine M2 (run calls s)) = true.
Proof.
  intros s calls.
  assert (N : forallb no_reset calls = true) by reflexivity.
  assert (A : Machine.maintenance_active (get_machine M2 s) = true) by reflexivity.
  split; [exact N|]. split; [exact A|].
  apply (@maintenance_flag_stays calls M2 s N A).
Defined.

(** *** Trucks *)

Lemma truck_frame_processing k r b s :
  get_truck k (fst (machine_request_processing r b s)) = get_truck k s.
Proof.
  unfold machine_request_processing, Machine.request_processing,
    Machine.start_processing, Machine.retrieve_quantity.
  destruct k, r; simpl; crush_matches;
    repeat match goal with m : mref |- _ => destruct m end; reflexivity.
Qed.

Lemma request_shipment_truck k s :
  wired s -> load_ok (get_truck k s) ->
  load_ok (get_truck k (fst (truck_request_shipment k s))) /\
  forall k', k' <> k -> get_truck k' (fst (truck_request_shipment k s)) = get_truck k' s.
Proof.
  intros W L.
  assert (Src : Truck.source_machine (get_truck k s) = Some M2)
    by (destruct k; [apply (wired_ts_source W)|apply (wired_tb_source W)]).
  assert (Cl : Truck.client (get_truck k s) = Some TheClient)
    by (destruct k; [apply (wired_ts_client W)|apply (wired_tb_client W)]).
  unfold truck_request_shipment, Truck.request_shipment, Machine.retrieve_quantity.
  rewrite Src, Cl.
  destruct (negb (Truck.state_eqb (Truck.state (get_truck k s)) Truck.available)).
  { split; [exact L|reflexivity]. }
  cbn [get_machine].
  destruct (Qle_bool (py_min (Truck.capacity (get_truck k s))
                             (Machine.stored_output (m2 s))) 0) eqn:Z.
  { split; [destruct k; exact L|intros k' N; destruct k, k'; reflexivity]. }
  split.
  - apply Qle_bool_false in Z.
    destruct k; unfold load_ok; simpl; (split; [exact Z|]);
      split_min; lra.
  - intros k' N. destruct k, k'; try congruence; reflexivity.
Qed.

Lemma truck_step_truck k s :
  load_ok (get_truck k s) ->
  load_ok (get_truck k (fst (truck_step k s))) /\
  forall k', k' <> k -> get_truck k' (fst (truck_step k s)) = get_truck k' s.
Proof.
  intros L. split.
  - unfold truck_step, Truck.step, Truck.finish_delivery.
    destruct (Truck.state (get_truck k s)) eqn:S; [exact L|].
    cbn [Truck.time_remaining Truck.set_time_remaining Truck.assign
         Truck.client Truck.current_load].
    unfold load_ok in L. rewrite S in L.
    destruct (_ <=? 0)%Z.
    + destruct (Truck.client (get_truck k s)).
      * destruct (Client.quantity_shipped _ _) as [c' [v|e]];
          destruct k; unfold load_ok; simpl in *; try rewrite S; trivial.
      * destruct k; unfold load_ok; simpl; trivial.
    + destruct k; unfold load_ok; simpl in *; rewrite S; exact L.
  - intros k' N. destruct (truck_step_other s N) as [E _]. exact E.
Qed.

Lemma prim_load_ok s s' :
  prim s s' -> wired s ->
  (forall k, load_ok (get_truck k s)) -> forall k, load_ok (get_truck k s').
Proof.
  intros P W L k.
  destruct P as [r b s|r s|k0 s|g r s|k0 s|s|s|s|r s|k0 s|x s|p s].
  - rewrite truck_frame_processing. apply L.
  - destruct r, k; first [exact (L SmallTruck)|exact (L BigTruck)].
  - destruct (@request_shipment_truck k0 s W (L k0)) as [H1 H2].
    destruct k, k0; try exact H1; rewrite H2; try discriminate; apply L.
  - destruct r, k; first [exact (L SmallTruck)|exact (L BigTruck)].
  - destruct (@truck_step_truck k0 s (L k0)) as [H1 H2].
    destruct k, k0; try exact H1; rewrite H2; try discriminate; apply L.
  - destruct k; first [exact (L SmallTruck)|exact (L BigTruck)].
  - destruct k; first [exact (L SmallTruck)|exact (L BigTruck)].
  - destruct k; first [exact (L SmallTruck)|exact (L BigTruck)].
  - destruct r, k; first [exact (L SmallTruck)|exact (L BigTruck)].
  - destruct k, k0; first [exact (L SmallTruck)|exact (L BigTruck)|reflexivity].
  - destruct k; first [exact (L SmallTruck)|exact (L BigTruck)].
  - destruct k; first [exact (L SmallTruck)|exact (L BigTruck)].
Qed.

Lemma reachable_load_ok s :
  reachable s -> forall k, load_ok (get_truck k s).
Proof.
  intros R.
  apply (reachable_ind_prim
           (fun s => wired s /\ forall k, load_ok (get_truck k s))); trivial.
  - intros g s0 E. split; [eapply init_wired; eauto|].
    destruct (init_cases _ E) as (p & _ & ->). intros k; destruct k; reflexivity.
  - intros s1 s2 P [W L]. split; [eapply prim_wired|eapply prim_load_ok]; eauto.
Qed.

Lemma configured_capacity s k :
  configured s ->
  Truck.capacity (get_truck k s)
  = match k with SmallTruck => 1 # 3 | BigTruck => 1 end /\
  Truck.time_to_deliver (get_truck k s)
  = match k with SmallTruck => 2%Z | BigTruck => 3%Z end.
Proof.
  intros C. destruct k; cbn [get_truck].
  - pose proof (conf_ts C) as E.
    split; [apply (f_equal Truck.capacity) in E
           |apply (f_equal Truck.time_to_deliver) in E]; exact E.
  - pose proof (conf_tb C) as E.
    split; [apply (f_equal Truck.capacity) in E
           |apply (f_equal Truck.time_to_deliver) in E]; exact E.
Qed.

(** X14. On every reachable system the small truck has capacity 1/3
    and the big truck capacity 1; a truck that is available carries
    nothing, and a truck that is delivering carries a positive load
    within its capacity. *)
Theorem truck_load_by_state s k :
  reachable s ->
  let truck := get_truck k s in
  let capacity := match k with SmallTruck => 1 # 3 | BigTruck => 1 end in
  Truck.capacity truck = capacity /\
  match Truck.state truck with
  | Truck.available => Truck.current_load truck = 0
  | Truck.delivering =>
      0 < Truck.current_load truck /\ Truck.current_load truck <= capacity
  end.
Proof.
  intros R. cbn zeta.
  destruct (configured_capacity k (reachable_configured R)) as [Cap _].
  split; [exact Cap|].
  pose proof (reachable_load_ok R k) as L. unfold load_ok in L.
  destruct (Truck.state (get_truck k s)); [exact L|].
  rewrite <- Cap. exact L.
Qed.

Lemma truck_load_by_state_witness :
  reachable jammed /\
  let truck := get_truck SmallTruck jammed in
  let capacity := 1 # 3 in
  Truck.capacity truck = capacity /\
  match Truck.state truck with
  | Truck.available => Truck.current_load truck = 0
  | Truck.delivering =>
      0 < Truck.current_load truck /\ Truck.current_load truck <= capacity
  end.
Proof.
  split; [exact jammed_reachable|].
  apply (@truck_load_by_state jammed SmallTruck jammed_reachable).
Defined.


Lemma accepted_quantity c q :
  rejects c q = false ->
  exists payment,
    snd (Client.quantity_shipped q c) = Ok payment /\
    Client.order_quantity (fst (Client.quantity_shipped q c))
    = Client.order_quantity c + q /\
    Client.current_payment (fst (Client.quantity_shipped q c))
    = Client.current_payment c + payment /\
    0 < q /\ Client.order_quantity c + q <= 1.
Proof.
  unfold rejects, Client.quantity_shipped.
  destruct (negb (Client.active c)); [discriminate|].
  destruct (Qle_bool q 0 || Qlt_bool 1 (Client.order_quantity c + q)) eqn:G;
    [discriminate|].
  destruct (Client.applicable_rate c); [|discriminate].
  intros _. qtests. eexists. repeat split; try reflexivity; assumption.
Qed.

(** X15. One step of a delivering truck on a reachable system.  While
    more than one tick remains it only counts down and returns [False].
    On the last tick, if the client accepts the load, the truck returns
    [True] and is available and empty, the client has received exactly
    the load through [quantity_shipped], and the machines and the other
    truck are untouched. *)
Theorem truck_step_delivers k s :
  reachable s ->
  let truck := get_truck k s in
  let arrival := (Truck.time_remaining truck - 1)%Z in
  Truck.state truck = Truck.delivering ->
  ((0 < arrival)%Z ->
   truck_step k s = (set_truck k (Truck.set_time_remaining truck arrival) s, Ok false)) /\
  ((arrival <= 0)%Z -> rejects (client s) (Truck.current_load truck) = false ->
   let s' := fst (truck_step k s) in
   snd (truck_step k s) = Ok true /\
   get_truck k s' = Truck.assign truck Truck.available 0 arrival
                      (Truck.client truck) (Truck.source_machine truck) /\
   client s' = fst (Client.quantity_shipped (Truck.current_load truck) (client s)) /\
   Client.order_quantity (client s')
   = Client.order_quantity (client s) + Truck.current_load truck /\
   m1 s' = m1 s /\ m2 s' = m2 s /\
   forall k', k' <> k -> get_truck k' s' = get_truck k' s).
Proof.
  intros R truck arrival St.
  pose proof (reachable_wired R) as W.
  assert (C : Truck.client truck = Some TheClient)
    by (subst truck; destruct k; [apply (wired_ts_client W)|apply (wired_tb_client W)]).
  unfold truck_step, Truck.step. fold truck. rewrite St.
  cbn [Truck.time_remaining Truck.set_time_remaining Truck.assign
       Truck.client Truck.current_load]. fold arrival.
  split.
  - intros A. destruct (Z.leb_spec arrival 0); [lia|reflexivity].
  - intros A Acc. destruct (Z.leb_spec arrival 0); [|lia].
    rewrite C.
    assert (G : forall x, get_client TheClient (set_truck k x s) = client s)
      by (intros x; destruct k; reflexivity).
    rewrite G.
    destruct (accepted_quantity _ _ Acc) as (payment & E1 & E2 & _).
    destruct (Client.quantity_shipped (Truck.current_load truck) (client s))
      as [c' r] eqn:Q. simpl in E1, E2. subst r.
    unfold Truck.finish_delivery. subst truck.
    destruct k; simpl in C |- *; repeat split; trivial; try exact E2;
      try (intros k' N; destruct k'; trivial; congruence);
      rewrite C; reflexivity.
Qed.

Lemma truck_step_delivers_witness :
  let s := run ([Action "step" first_entry; Action "step" first_entry;
                 Action "step" first_entry; Action "m2_processing_full" first_entry;
                 Action "step" first_entry; Action "step" first_entry;
                 Action "step" first_entry; Action "small_truck_shipment" first_entry;
                 Action "step" first_entry]%string) fresh in
  reachable s /\
  let truck := get_truck SmallTruck s in
  let arrival := (Truck.time_remaining truck - 1)%Z in
  Truck.state truck = Truck.delivering /\
  ((0 < arrival)%Z ->
   truck_step SmallTruck s
   = (set_truck SmallTruck (Truck.set_time_remaining truck arrival) s, Ok false)) /\
  (arrival <= 0)%Z /\ rejects (client s) (Truck.current_load truck) = false /\
  let s' := fst (truck_step SmallTruck s) in
  snd (truck_step SmallTruck s) = Ok true /\
  get_truck SmallTruck s' = Truck.assign truck Truck.available 0 arrival
                              (Truck.client truck) (Truck.source_machine truck) /\
  client s' = fst (Client.quantity_shipped (Truck.current_load truck) (client s)) /\
  Client.order_quantity (client s')
  = Client.order_quantity (client s) + Truck.current_load truck /\
  m1 s' = m1 s /\ m2 s' = m2 s /\
  forall k', k' <> SmallTruck -> get_truck k' s' = get_truck k' s.
Proof.
  intros s.
  assert (R : reachable s) by (apply reachable_run, fresh_reachable).
  assert (St : Truck.state (get_truck SmallTruck s) = Truck.delivering) by reflexivity.
  destruct (truck_step_delivers SmallTruck R St) as [H1 H2].
  split; [exact R|]. split; [exact St|]. split; [exact H1|].
  assert (A : (Truck.time_remaining (get_truck SmallTruck s) - 1 <= 0)%Z)
    by (vm_compute; discriminate).
  assert (Acc : rejects (client s) (Truck.current_load (get_truck SmallTruck s)) = false)
    by reflexivity.
  split; [exact A|]. split; [exact Acc|]. exact (H2 A Acc).
Defined.

End SystemMore.

(** ** The observation *)

Module Observation.
Import System Line More Ledger SystemFacts MachineMore SystemMore.

Lemma step_unfolded g s :
  wired s ->
  fst (step g s) =
  fst (client_step_time
         (fst (truck_step BigTruck
                 (fst (truck_step SmallTruck
                         (fst (machine_step g M2 (fst (machine_step g M1 s))))))))).
Proof.
  intros W. unfold step. cbn [fst].
  rewrite (wired_machines W). cbn [fold_left]. unfold attempt.
  assert (W2 : wired (fst (machine_step g M2 (fst (machine_step g M1 s))))).
  { eapply prim_wired; [apply prim_machine_step|].
    eapply prim_wired; [apply prim_machine_step|exact W]. }
  rewrite (wired_trucks W2). reflexivity.
Qed.


Lemma configured_machine s r :
  configured s ->
  Machine.processing_times (get_machine r s) = Machine.default_processing_times /\
  Machine.success_probabilities (get_machine r s) = Machine.default_success_probabilities /\
  Machine.maintenance_effect (get_machine r s) = Machine.default_maintenance_effect /\
  Machine.maintenance_time (get_machine r s) = 2%Z.
Proof.
  intros C. destruct r; cbn [get_machine].
  - pose proof (conf_m1 C) as E.
    pose proof (f_equal Machine.processing_times E).
    pose proof (f_equal Machine.success_probabilities E).
    pose proof (f_equal Machine.maintenance_effect E).
    pose proof (f_equal Machine.maintenance_time E). auto.
  - pose proof (conf_m2 C) as E.
    pose proof (f_equal Machine.processing_times E).
    pose proof (f_equal Machine.success_probabilities E).
    pose proof (f_equal Machine.maintenance_effect E).
    pose proof (f_equal Machine.maintenance_time E). auto.
Qed.

Lemma start_ok r b s :
  configured s ->
  machine_ok (get_machine r (Machine.start_processing get_machine set_machine r b s)).
Proof.
  intros C. destruct (configured_machine r C) as (P & _).
  unfold Machine.start_processing.
  destruct r; cbn [get_machine] in *; unfold machine_ok; simpl;
    rewrite P; (split; [eauto|destruct b; simpl; lia]).
Qed.

Lemma step_ok draw m :
  Machine.success_probabilities m = Machine.default_success_probabilities ->
  Machine.maintenance_effect m = Machine.default_maintenance_effect ->
  machine_ok m -> machine_ok (fst (Machine.step draw m)).
Proof.
  intros T1 T2 K. unfold machine_ok in *. unfold Machine.step.
  destruct (Machine.state m) eqn:S.
  - cbn [fst]. rewrite S. exact K.
  - destruct K as [[b B] T].
    cbn [Machine.time_remaining Machine.set_time_remaining Machine.assign
         Machine.current_batch_size Machine.maintenance_active
         Machine.maintenance_effect Machine.success_probabilities].
    destruct (Z.leb_spec (Machine.time_remaining m - 1) 0).
    + rewrite B, T1, T2.
      destruct (@random_choices_in
                  (map fst (if Machine.maintenance_active m
                            then Machine.default_maintenance_effect b
                            else Machine.default_success_probabilities b)) draw)
        as (o & Ro & _).
      { destruct (Machine.maintenance_active m), b; discriminate. }
      rewrite Ro. destruct o; reflexivity.
    + cbn [fst]. simpl. rewrite S. split; [eauto|lia].
  - destruct K as [B T].
    cbn [Machine.time_remaining Machine.set_time_remaining Machine.assign].
    destruct (Z.leb_spec (Machine.time_remaining m - 1) 0); cbn [fst]; simpl.
    + exact B.
    + rewrite S. split; [exact B|lia].
Qed.

Ltac inst H := first [exact (H _) | exact (H M1) | exact (H M2)].

Lemma prim_machine_ok s s' :
  prim s s' -> wired s -> configured s ->
  (forall r, machine_ok (get_machine r s)) -> forall r, machine_ok (get_machine r s').
Proof.
  intros P W C K r.
  destruct P as [r0 b s|r0 s|k s|g r0 s|k s|s|s|s|r0 s|k s|x s|p s].
  - unfold machine_request_processing, Machine.request_processing.
    destruct (negb _); [inst K|].
    destruct (Machine.parse_batch b) as [b0|]; [|inst K].
    destruct (Machine.source_machine (get_machine r0 s)) as [src|] eqn:Src.
    + unfold Machine.retrieve_quantity.
      set (s1 := set_machine src _ s).
      assert (K1 : forall r, machine_ok (get_machine r s1)).
      { intros r1. subst s1. pose proof (K r1) as K1. pose proof (K src) as K2.
        destruct r1, src; unfold machine_ok in *; simpl in *; assumption. }
      assert (C1 : configured s1).
      { subst s1. destruct C. destruct src; constructor; simpl; assumption. }
      destruct (Qlt_bool _ _); cbn [fst]; [inst K1|].
      pose proof (start_ok r0 b0 C1) as St.
      destruct r, r0; try exact St;
        unfold Machine.start_processing; simpl; inst K1.
    + set (s1 := set_machine r0 _ s).
      assert (K1 : forall r, machine_ok (get_machine r s1)).
      { intros r1. subst s1. pose proof (K r1) as K1. pose proof (K r0) as K2.
        destruct r1, r0; unfold machine_ok in *; simpl in *; assumption. }
      assert (C1 : configured s1).
      { subst s1. destruct C. destruct r0; constructor; simpl; assumption. }
      cbn [fst].
      pose proof (start_ok r0 b0 C1) as St.
      destruct r, r0; try exact St;
        unfold Machine.start_processing; simpl; inst K1.
  - unfold machine_request_maintenance, Machine.request_maintenance. cbn [fst].
    destruct (configured_machine r0 C) as (_ & _ & _ & Mt).
    pose proof (K r0) as K0. pose proof (K r) as Kr.
    destruct (Machine.state (get_machine r0 s)) eqn:S0; cbn [negb Machine.state_eqb fst];
      destruct r, r0; unfold machine_ok in *; cbn [get_machine] in *; simpl;
      rewrite ?S0 in *; rewrite ?Mt; try assumption; split; trivial; lia.
  - unfold truck_request_shipment, Truck.request_shipment, Machine.retrieve_quantity.
    pose proof (K r) as Kr. pose proof (K M1) as K1. pose proof (K M2) as K2.
    destruct k, r; simpl; crush_matches;
      repeat match goal with m : mref |- _ => destruct m end;
      unfold machine_ok in *; simpl in *; assumption.
  - unfold machine_step. cbn [fst].
    destruct (configured_machine r0 C) as (_ & T1 & T2 & _).
    pose proof (@step_ok (choice g r0) (get_machine r0 s) T1 T2 (K r0)) as St.
    destruct r, r0; try exact St; inst K.
  - unfold truck_step, Truck.step, Truck.finish_delivery.
    pose proof (K r) as Kr.
    destruct k, r; simpl; crush_matches; simpl; exact Kr.
  - destruct r; inst K.
  - destruct r; inst K.
  - destruct r; inst K.
  - destruct r, r0; try inst K; reflexivity.
  - destruct r, k; inst K.
  - destruct r; inst K.
  - destruct r; inst K.
Qed.

Lemma reachable_machine_ok s : reachable s -> forall r, machine_ok (get_machine r s).
Proof.
  intros R.
  apply (reachable_ind_prim
           (fun s => (wired s /\ configured s) /\ forall r, machine_ok (get_machine r s)));
    trivial.
  - intros g s0 E. split; [split; [eapply init_wired|eapply init_configured]; eauto|].
    destruct (init_cases _ E) as (p & _ & ->).
    intros r; destruct r; unfold machine_ok; simpl; [split; [eauto|lia]|reflexivity].
  - intros s1 s2 P [[W C] K]. split; [split|].
    + eapply prim_wired; eauto.
    + eapply prim_configured; eauto.
    + eapply prim_machine_ok; eauto.
Qed.


Lemma machine_status_ok m :
  machine_ok m ->
  In (fst (machine_status m)) machine_tags /\
  (Machine.state m = Machine.processing ->
   snd (machine_status m) = Machine.time_remaining m /\
   (1 <= snd (machine_status m))%Z) /\
  (Machine.state m <> Machine.processing -> snd (machine_status m) = 0%Z).
Proof.
  unfold machine_ok, machine_status, machine_tags.
  destruct (Machine.state m); intros K.
  - simpl. split; [tauto|]. split; [discriminate|reflexivity].
  - destruct K as [[b B] T]. rewrite B. split; [|split; [|congruence]].
    + destruct b; simpl; tauto.
    + intros _. split; [reflexivity|exact T].
  - simpl. split; [tauto|]. split; [discriminate|reflexivity].
Qed.

Lemma penalty_clock_ok c :
  Client.inv c -> exists z, penalty_clock (Client.get_state c) = Ok z /\ (-1 <= z)%Z.
Proof.
  intros I. unfold penalty_clock. simpl.
  destruct (Client.state c) eqn:S; try (exists (-1)%Z; split; [reflexivity|lia]).
  - destruct (Client.inv_terms I) as (p & tl & _ & _ & _ & E & _); [congruence|].
    rewrite E. destruct (tl <? _)%Z; eexists; (split; [reflexivity|lia]).
  - destruct (Client.inv_terms I) as (p & tl & _ & _ & _ & E & _); [congruence|].
    rewrite E. destruct (tl <? _)%Z; eexists; (split; [reflexivity|lia]).
Qed.

(** X18. On every reachable system [get_state] returns (it does not
    raise) a tuple in which: the priority is low, medium, high or none;
    the three quantities are multiples of 1/6 between 0 and 1 (in exact
    arithmetic); time to penalty is at least -1; a machine's status is
    idle, maintenance or processing with its batch size, its time to
    completion 0 unless it is processing and at least 1 when it is; the
    small truck shows idle or shipping_third, the big truck one of the
    five truck tags. *)
Theorem observation_well_formed s :
  reachable s ->
  exists o,
    get_state s = Ok o /\
    In (client_current_priority o) priority_tags /\
    sixth (quantity_shipped_to_the_client o) /\
    sixth (m1_stored o) /\ sixth (m2_stored o) /\
    (-1 <= time_to_penalty o)%Z /\
    In (m1_status o) machine_tags /\ In (m2_status o) machine_tags /\
    (forall r, Machine.state (get_machine r s) <> Machine.processing ->
               match r with M1 => m1_to_completion o | M2 => m2_to_completion o end
               = 0%Z) /\
    (forall r, Machine.state (get_machine r s) = Machine.processing ->
               (1 <= match r with M1 => m1_to_completion o | M2 => m2_to_completion o end)%Z) /\
    In (ts_status o) ["idle"; "shipping_third"]%string /\
    In (tb_status o) truck_tags.
Proof.
  intros R.
  pose proof (reachable_client_inv R) as I.
  pose proof (reachable_machine_ok R) as K.
  pose proof (reachable_load_ok R) as L.
  destruct (@penalty_clock_ok _ I) as (z & Ez & Lz).
  destruct (@machine_status_ok _ (K M1)) as (A1 & B1 & C1).
  destruct (@machine_status_ok _ (K M2)) as (A2 & B2 & C2).
  cbn [get_machine] in *.
  unfold get_state. rewrite Ez. eexists. split; [reflexivity|].
  cbn [client_current_priority quantity_shipped_to_the_client time_to_penalty
       m1_status m1_stored m1_to_completion m2_status m2_stored m2_to_completion
       ts_status ts_to_completion tb_status tb_to_completion].
  repeat split.
  - simpl. destruct (Client.current_priority (client s)) as [[ | | ]|];
      unfold priority_tags; simpl; tauto.
  - apply QuantizeFacts.quantize_sixths.
  - apply QuantizeFacts.quantize_sixths.
  - apply QuantizeFacts.quantize_sixths.
  - exact Lz.
  - exact A1.
  - exact A2.
  - intros r N. destruct r; [apply C1|apply C2]; exact N.
  - intros r E. destruct r; [apply B1|apply B2]; exact E.
  - pose proof (L SmallTruck) as Ls. unfold load_ok in Ls. cbn [get_truck] in Ls.
    unfold small_truck_status.
    destruct (Truck.state (small_truck s)); simpl; [tauto|].
    destruct (Qeq_bool (Truck.current_load (small_truck s)) 0) eqn:Z; [|tauto].
    apply Qeq_bool_iff in Z. lra.
  - unfold big_truck_status, truck_tags.
    destruct (Truck.state (big_truck s)); simpl; [tauto|].
    destruct (Qeq_bool _ 0); [tauto|].
    destruct (Qle_bool _ (1 # 3)); [tauto|].
    destruct (Qle_bool _ (2 # 3)); tauto.
Qed.

Lemma observation_well_formed_witness :
  reachable jammed /\
  exists o,
    get_state jammed = Ok o /\
    In (client_current_priority o) priority_tags /\
    sixth (quantity_shipped_to_the_client o) /\
    sixth (m1_stored o) /\ sixth (m2_stored o) /\
    (-1 <= time_to_penalty o)%Z /\
    In (m1_status o) machine_tags /\ In (m2_status o) machine_tags /\
    (forall r, Machine.state (get_machine r jammed) <> Machine.processing ->
               match r with M1 => m1_to_completion o | M2 => m2_to_completion o end
               = 0%Z) /\
    (forall r, Machine.state (get_machine r jammed) = Machine.processing ->
               (1 <= match r with M1 => m1_to_completion o | M2 => m2_to_completion o end)%Z) /\
    In (ts_status o) ["idle"; "shipping_third"]%string /\
    In (tb_status o) truck_tags.
Proof.
  split; [exact jammed_reachable|]. apply (observation_well_formed jammed_reachable).
Defined.

Lemma truck_step_client k s :
  client (fst (truck_step k s)) = client s
  \/ exists q, client (fst (truck_step k s)) = fst (Client.quantity_shipped q (client s)).
Proof.
  unfold truck_step, Truck.step, Truck.finish_delivery.
  destruct (Truck.state (get_truck k s)); [left; reflexivity|].
  cbn [Truck.time_remaining Truck.set_time_remaining Truck.assign
       Truck.client Truck.current_load].
  destruct (_ <=? 0)%Z; [|left; destruct k; reflexivity].
  destruct (Truck.client (get_truck k s)); [|left; destruct k; reflexivity].
  right. exists (Truck.current_load (get_truck k s)).
  assert (G : forall x, get_client c (set_truck k x s) = client s)
    by (intros x; destruct k; reflexivity).
  rewrite G.
  destruct (Client.quantity_shipped _ (client s)) as [c' [v|e]];
    destruct k; reflexivity.
Qed.

Lemma shipment_keeps_clock q c :
  Client.time_passed (fst (Client.quantity_shipped q c)) = Client.time_passed c.
Proof. unfold Client.quantity_shipped. crush_matches; reflexivity. Qed.

Lemma step_time_clock c :
  Client.time_passed (fst (Client.step_time c))
  = (if Client.active (fst (Client.step_time c)) then Client.time_passed c + 1
     else Client.time_passed c)%Z.
Proof.
  unfold Client.step_time. destruct (Client.active c) eqn:A.
  - destruct (Client.time_limit c); cbn [fst]; unfold Client.active in *; simpl;
      rewrite A; reflexivity.
  - cbn [fst]. rewrite A. reflexivity.
Qed.

(** X19. In one [step] of a reachable system the client comes last: its
    clock advances by one exactly when its order is still open after the
    trucks of that tick have delivered; the tick in which a delivery
    completes the order does not count, and a completed client's clock
    stands still. *)
Theorem tick_advances_clock g s :
  reachable s ->
  let s' := fst (step g s) in
  Client.time_passed (client s')
  = (if Client.active (client s') then Client.time_passed (client s) + 1
     else Client.time_passed (client s))%Z /\
  (Client.state (client s') = Client.completed ->
   Client.time_passed (client s') = Client.time_passed (client s)).
Proof.
  intros R s'.
  pose proof (reachable_wired R) as W.
  subst s'. rewrite (step_unfolded g W).
  set (s2 := fst (machine_step g M2 (fst (machine_step g M1 s)))).
  assert (E2 : client s2 = client s) by reflexivity.
  assert (T : forall k x,
             Client.time_passed (client (fst (truck_step k x)))
             = Client.time_passed (client x)).
  { intros k x. destruct (truck_step_client k x) as [E|[q E]]; rewrite E;
      [reflexivity|apply shipment_keeps_clock]. }
  set (s4 := fst (truck_step BigTruck (fst (truck_step SmallTruck s2)))).
  assert (E4 : Client.time_passed (client s4) = Client.time_passed (client s)).
  { subst s4. rewrite !T, E2. reflexivity. }
  change (client (fst (client_step_time s4))) with (fst (Client.step_time (client s4))).
  rewrite step_time_clock, E4. split; [reflexivity|].
  intros Cd. unfold Client.active. rewrite Cd. reflexivity.
Qed.

Lemma tick_advances_clock_witness :
  reachable jammed /\
  let s' := fst (step first_entry jammed) in
  Client.time_passed (client s')
  = (if Client.active (client s') then Client.time_passed (client jammed) + 1
     else Client.time_passed (client jammed))%Z /\
  (Client.state (client s') = Client.completed ->
   Client.time_passed (client s') = Client.time_passed (client jammed)).
Proof.
  split; [exact jammed_reachable|].
  apply (tick_advances_clock first_entry jammed_reachable).
Defined.

End Observation.

(** ** Rounding *)

Module Rounding.
Import System Line More Ledger SystemFacts QuantizeFacts.

(** C5. In binary64 [quantize] does not round down: the product
    [value * 6] is rounded before [int] truncates it.  For the stored
    output 0.5 + 1/3, a double just below 5/6, the product is exactly
    5.0 and [quantize] returns the double 5/6, which is above its
    input. *)
Theorem quantize_rounds_up :
  Binary64.half_plus_third = S754_finite false 7505999378950826 (-53) /\
  Binary64.mul Binary64.half_plus_third (Binary64.of_int 6)
  = Binary64.of_int 5 /\
  Binary64.quantize Binary64.half_plus_third
  = Ok (Binary64.div (Binary64.of_int 5) (Binary64.of_int 6)) /\
  Binary64.div (Binary64.of_int 5) (Binary64.of_int 6)
  = S754_finite false 7505999378950827 (-53) /\
  SFltb Binary64.half_plus_third
        (Binary64.div (Binary64.of_int 5) (Binary64.of_int 6)) = true.
Proof. vm_compute. repeat split; reflexivity. Qed.

End Rounding.

(** ** Shipments and the fixed configuration *)

Module Shipment.
Import System Line More Ledger SystemFacts SystemMore.

(** X21. [request_shipment] of a truck on a reachable system.  A truck
    that is delivering refuses and nothing changes.  An available truck
    facing an empty M2 returns [False] and stays as it is.  Otherwise it
    returns [True], takes [min(capacity, stored)] out of M2's stored
    output as its load, is delivering with 2 ticks to go for the small
    truck and 3 for the big one, and M1, the client and the other truck
    are untouched. *)
Theorem request_shipment_spec k s :
  reachable s ->
  let truck := get_truck k s in
  let stored := Machine.stored_output (m2 s) in
  let capacity := match k with SmallTruck => 1 # 3 | BigTruck => 1 end in
  let s' := fst (truck_request_shipment k s) in
  (Truck.state truck = Truck.delivering ->
   truck_request_shipment k s = (s, Ok false)) /\
  (Truck.state truck = Truck.available -> stored <= 0 ->
   snd (truck_request_shipment k s) = Ok false /\
   get_truck k s' = truck /\
   Machine.stored_output (m2 s') == stored) /\
  (Truck.state truck = Truck.available -> 0 < stored ->
   snd (truck_request_shipment k s) = Ok true /\
   Truck.state (get_truck k s') = Truck.delivering /\
   Truck.current_load (get_truck k s') == Qmin capacity stored /\
   Truck.time_remaining (get_truck k s')
   = match k with SmallTruck => 2%Z | BigTruck => 3%Z end /\
   Machine.stored_output (m2 s') + Truck.current_load (get_truck k s') == stored /\
   m1 s' = m1 s /\ client s' = client s /\
   forall k', k' <> k -> get_truck k' s' = get_truck k' s).
Proof.
  intros R. cbn zeta.
  pose proof (reachable_wired R) as W.
  pose proof (reachable_sound R) as Snd.
  destruct (configured_capacity k (reachable_configured R)) as [Cap Ttd].
  assert (Src : Truck.source_machine (get_truck k s) = Some M2)
    by (destruct k; [apply (wired_ts_source W)|apply (wired_tb_source W)]).
  assert (Cl : Truck.client (get_truck k s) = Some TheClient)
    by (destruct k; [apply (wired_ts_client W)|apply (wired_tb_client W)]).
  unfold truck_request_shipment, Truck.request_shipment, Machine.retrieve_quantity.
  rewrite Src, Cl, Cap. cbn [get_machine].
  split; [|split].
  - intros St. rewrite St. reflexivity.
  - intros St L. rewrite St. cbn [negb Truck.state_eqb].
    assert (E0 : Machine.stored_output (m2 s) == 0)
      by (pose proof (sound_m2 Snd); lra).
    destruct (Qle_bool (py_min _ (Machine.stored_output (m2 s))) 0) eqn:Z.
    + cbn [fst snd]. split; [reflexivity|]. split.
      * destruct k; reflexivity.
      * destruct k; simpl; split_min; lra.
    + apply Qle_bool_false in Z. exfalso. destruct k; split_min; lra.
  - intros St L. rewrite St. cbn [negb Truck.state_eqb].
    destruct (Qle_bool (py_min _ (Machine.stored_output (m2 s))) 0) eqn:Z.
    + apply Qle_bool_iff in Z. exfalso. destruct k; split_min; lra.
    + cbn [fst snd]. split; [reflexivity|].
      destruct k; simpl; rewrite ?Ttd;
        (split; [reflexivity|]);
        (split; [split_min; [rewrite Q.min_r by lra|rewrite Q.min_l by lra]; reflexivity|]);
        (split; [simpl in Ttd; try exact Ttd|]);
        (split; [ring|]);
        (split; [reflexivity|]); (split; [reflexivity|]);
        intros k' N; destruct k'; try congruence; reflexivity.
Qed.

Lemma request_shipment_spec_witness :
  reachable jammed /\
  let k := SmallTruck in
  let s := jammed in
  let truck := get_truck k s in
  let stored := Machine.stored_output (m2 s) in
  let capacity := 1 # 3 in
  let s' := fst (truck_request_shipment k s) in
  (Truck.state truck = Truck.delivering ->
   truck_request_shipment k s = (s, Ok false)) /\
  (Truck.state truck = Truck.available -> stored <= 0 ->
   snd (truck_request_shipment k s) = Ok false /\
   get_truck k s' = truck /\
   Machine.stored_output (m2 s') == stored) /\
  (Truck.state truck = Truck.available -> 0 < stored ->
   snd (truck_request_shipment k s) = Ok true /\
   Truck.state (get_truck k s') = Truck.delivering /\
   Truck.current_load (get_truck k s') == Qmin capacity stored /\
   Truck.time_remaining (get_truck k s') = 2%Z /\
   Machine.stored_output (m2 s') + Truck.current_load (get_truck k s') == stored /\
   m1 s' = m1 s /\ client s' = client s /\
   forall k', k' <> k -> get_truck k' s' = get_truck k' s).
Proof.
  split; [exact jammed_reachable|].
  apply (@request_shipment_spec SmallTruck jammed jammed_reachable).
Defined.

(** X22. What no call ever changes on a reachable system: [time] and
    [total_profit] stay 0 (no method advances them, [step] included),
    the machine and truck lists and the links between the objects stay
    as [System()] set them, and the machines keep the default processing
    times and the maintenance time 2. *)
Theorem counters_never_move s :
  reachable s ->
  time s = 0%Z /\ total_profit s = 0%Z /\
  machines s = [M1; M2] /\ trucks s = [SmallTruck; BigTruck] /\
  Machine.source_machine (m1 s) = None /\
  Machine.source_machine (m2 s) = Some M1 /\
  (forall k, Truck.source_machine (get_truck k s) = Some M2 /\
             Truck.client (get_truck k s) = Some TheClient) /\
  (forall r b, Machine.processing_times (get_machine r s) b
               = Machine.default_processing_times b) /\
  (forall r, Machine.maintenance_time (get_machine r s) = 2%Z).
Proof.
  intros R.
  pose proof (reachable_wired R) as W.
  pose proof (reachable_configured R) as C.
  split; [apply (conf_time C)|]. split; [apply (conf_profit C)|].
  split; [apply (wired_machines W)|]. split; [apply (wired_trucks W)|].
  split; [apply (wired_m1 W)|]. split; [apply (wired_m2 W)|].
  split; [|split].
  - intros k; destruct k; split;
      first [apply (wired_ts_source W)|apply (wired_ts_client W)
            |apply (wired_tb_source W)|apply (wired_tb_client W)].
  - intros r b; destruct r; cbn [get_machine];
      [pose proof (conf_m1 C) as E|pose proof (conf_m2 C) as E];
      apply (f_equal (fun m => Machine.processing_times m b)) in E; exact E.
  - intros r; destruct r; cbn [get_machine];
      [pose proof (conf_m1 C) as E|pose proof (conf_m2 C) as E];
      apply (f_equal Machine.maintenance_time) in E; exact E.
Qed.

Lemma counters_never_move_witness :
  reachable jammed /\
  time jammed = 0%Z /\ total_profit jammed = 0%Z /\
  machines jammed = [M1; M2] /\ trucks jammed = [SmallTruck; BigTruck] /\
  Machine.source_machine (m1 jammed) = None /\
  Machine.source_machine (m2 jammed) = Some M1 /\
  (forall k, Truck.source_machine (get_truck k jammed) = Some M2 /\
             Truck.client (get_truck k jammed) = Some TheClient) /\
  (forall r b, Machine.processing_times (get_machine r jammed) b
               = Machine.default_processing_times b) /\
  (forall r, Machine.maintenance_time (get_machine r jammed) = 2%Z).
Proof.
  split; [exact jammed_reachable|].
  apply (counters_never_move jammed_reachable).
Defined.

End Shipment.
